(** * maxdefense.hh: armor selection under a gold budget

    A shallow embedding of [src/maxdefense.hh] and the properties of its
    filter, of its dynamic-programming solver and of its exhaustive solver.

    Modelling conventions.
    - [int] (32 bits, signed) is a [Z]; where the source can leave the range
      of [int] (the conversion of [pow(2, n)], the running cost in
      [sum_armor_vector]) the operation is checked and the model stops with
      [UndefinedBehaviour], as C++ gives signed overflow no meaning.
    - [size_t] (64 bits, unsigned) is a [Z] taken modulo [2^64]; the only
      place where a signed value meets it is the size test of the filter.
    - [double] is a [Q]: every finite double is a rational, and comparison
      is exact on them.  The sum of two doubles is rounded.  The definitions
      of the module [Rounded] take the addition of doubles as a parameter
      [fadd]; what is proved of them for every [fadd] holds of the code
      whatever the rounding is, and [binary64_add] is the addition of IEEE
      754 (round to nearest, ties to even, 53 bits), proved monotone and
      compared with the primitive floats on samples.  The definitions
      outside [Rounded] are its instance at the exact sum [Qplus] (lemma
      [exact_addition]); they agree with the code on the inputs whose
      partial sums are representable (integer defenses below [2^53], for
      one).  The equations and the comparisons between sums of defenses
      that hold of the code are stated of [Rounded].  Numbers beyond the
      range of double, infinities and NaN are not modelled.
    - [std::vector] is a [list]; [v[i] = x] is stdpp's [<[i:=x]>], reads are
      [nth] with a default that no reachable access ever sees.  Allocation
      succeeds: the table of the dynamic solver has [total_cost + 1] columns
      whatever the budget that is not negative, which the specification
      leaves to the caller.  Under a budget below -1 the constructor of the
      first row throws; this is not modelled, and what is stated of the
      table takes a budget that is not negative.
    - a [shared_ptr<ArmorItem>] is the item itself.
    - a file is the text found at its path, or nothing when it cannot be
      opened; [std::getline] is modelled on the text left to read, and what
      [operator>>] reads of a double is a parameter of the loader.  What is
      written to [std::cout] is a list of outputs; the messages of the loader
      are left out. *)

From Stdlib Require Import PrimFloat FloatOps SpecFloat.
From Stdlib Require Import ZArith QArith Qabs Qround Qpower Lqa Lia List String Ascii Bool.
From stdpp Require Import base list.
Import ListNotations.

#[local] Open Scope Z_scope.

(** ** Machine integers *)

Definition INT_MIN : Z := - 2 ^ 31.
Definition INT_MAX : Z := 2 ^ 31 - 1.

Definition in_int (z : Z) : bool := (INT_MIN <=? z) && (z <=? INT_MAX).

(** Conversion of an [int] to [size_t], as the usual arithmetic conversions
    do when the two are compared. *)
Definition int_to_size_t (z : Z) : Z := z mod 2 ^ 64.

(** ** Outcomes of a call *)

Inductive outcome (A : Type) : Type :=
| Ok (a : A)
| AssertionFailure
| UndefinedBehaviour.

Arguments Ok {A} a.
Arguments AssertionFailure {A}.
Arguments UndefinedBehaviour {A}.

#[global] Instance outcome_ret : MRet outcome := fun A a => Ok a.

#[global] Instance outcome_bind : MBind outcome := fun A B k m =>
  match m with
  | Ok a => k a
  | AssertionFailure => AssertionFailure
  | UndefinedBehaviour => UndefinedBehaviour
  end.

(** [int + int]. *)
Definition int_add (a b : Z) : outcome Z :=
  if in_int (a + b) then Ok (a + b) else UndefinedBehaviour.

(** [int x = d] for a double [d] that holds the integer [z]. *)
Definition double_to_int (z : Z) : outcome Z :=
  if in_int z then Ok z else UndefinedBehaviour.

(** ** Comparison of doubles *)

Definition Qlt_bool (x y : Q) : bool := negb (Qle_bool y x).

(** ** Items and vectors of items *)

Record ArmorItem : Type := mkArmorItem
  { description : string;   (* _description *)
    cost : Z;               (* _cost_gold, an int *)
    defense : Q             (* _defense_points, a double *) }.

(** [typedef std::vector<std::shared_ptr<ArmorItem>> ArmorVector]. *)
Abbreviation ArmorVector := (list ArmorItem) (only parsing).

(** The sums of a vector, as mathematical values. *)
Definition total_cost (armors : ArmorVector) : Z :=
  fold_left (fun c a => c + cost a) armors 0.

Definition total_defense (armors : ArmorVector) : Q :=
  fold_left (fun d a => (d + defense a)%Q) armors (0%Q).

(** [sum_armor_vector]: the two running sums; the cost is an [int]. *)
Definition sum_armor_vector (armors : ArmorVector) : outcome (Z * Q) :=
  fold_left
    (fun acc armor =>
       '(total_cost, total_defense) ← acc;
       total_cost' ← int_add total_cost (cost armor);
       Ok (total_cost', (total_defense + defense armor)%Q))
    armors (Ok (0, 0%Q)).

(** ** filter_armor_vector *)

(** One turn of the loop over [source]: the size test compares a [size_t]
    with the [int] [total_size], which is converted to [size_t]. *)
Definition filter_step (min_defense max_defense : Q) (total_size : Z)
    (FilteredArmor : ArmorVector) (a : ArmorItem) : ArmorVector :=
  if Qlt_bool 0 (defense a)
     && (Z.of_nat (length FilteredArmor) <? int_to_size_t total_size)
  then
    if Qlt_bool min_defense (defense a) && Qle_bool (defense a) max_defense
    then FilteredArmor ++ [a]
    else FilteredArmor
  else FilteredArmor.

Definition filter_armor_vector (source : ArmorVector)
    (min_defense max_defense : Q) (total_size : Z) : ArmorVector :=
  fold_left (filter_step min_defense max_defense total_size) source [].

(** ** dynamic_max_defense *)

(** The free-standing [max] of the source. *)
Definition max (a b : Q) : Q := if Qle_bool b a then a else b.

Abbreviation table_t := (list (list Q)) (only parsing).

(** [table[i][j]] as a value. *)
Definition rd (table : table_t) (i j : nat) : Q := nth j (nth i table []) 0%Q.

(** [table[i][j] = v]. *)
Definition wr (table : table_t) (i j : nat) (v : Q) : table_t :=
  <[i := <[j := v]> (nth i table [])]> table.

(** [for (int k = lo; k < lo + count; k++) body]. *)
Definition for_up {T : Type} (lo count : nat) (body : nat -> T -> T) (s : T) : T :=
  fold_left (fun s k => body k s) (seq lo count) s.

(** [for (int k = hi; k > 0; k--) body]. *)
Definition for_down {T : Type} (hi : nat) (body : nat -> T -> T) (s : T) : T :=
  fold_left (fun s k => body k s) (rev (seq 1 hi)) s.

(** The fill constructor: [total_size + 1] rows of [total_cost + 1] zeros. *)
Definition new_table (total_size : nat) (total_cost : Z) : table_t :=
  repeat (repeat 0%Q (Z.to_nat (total_cost + 1))) (total_size + 1).

(** The first pair of loops: every cell past row 0 and column 0 is set to
    the sentinel. *)
Definition set_initials (total_size : nat) (total_cost : Z) (table : table_t) : table_t :=
  for_up 1 total_size
    (fun i table =>
       for_up 1 (Z.to_nat total_cost)
         (fun j table => wr table i j (-999999)%Q) table)
    table.

(** The body of the second pair of loops.  [armors.at(i - 1)] throws out of
    range; the loops keep [i - 1] within the vector. *)
Definition enter_cell (armors : ArmorVector) (i j : nat) (table : table_t) : table_t :=
  match armors !! (i - 1)%nat with
  | Some a =>
      if Z.of_nat j - cost a >? 0
      then wr table i j
             (max (rd table (i - 1) j)
                  (rd table (i - 1) (Z.to_nat (Z.of_nat j - cost a)) + defense a)%Q)
      else wr table i j (rd table (i - 1) j)
  | None => table
  end.

Definition enter_values (armors : ArmorVector) (total_size : nat) (total_cost : Z)
    (table : table_t) : table_t :=
  for_up 1 total_size
    (fun i table =>
       for_up 1 (Z.to_nat total_cost) (fun j table => enter_cell armors i j table) table)
    table.

(** The table as it stands when the reconstruction starts. *)
Definition build_table (armors : ArmorVector) (total_cost : Z) : table_t :=
  let total_size := length armors in
  enter_values armors total_size total_cost
    (set_initials total_size total_cost (new_table total_size total_cost)).

(** The body of the last loop; the state is [horz] and [choice]. *)
Definition choose_step (armors : ArmorVector) (table : table_t) (i : nat)
    (st : Z * ArmorVector) : Z * ArmorVector :=
  let '(horz, choice) := st in
  if negb (Qeq_bool (rd table i (Z.to_nat horz)) 0) then
    if negb (Qeq_bool (rd table i (Z.to_nat horz)) (rd table (i - 1) (Z.to_nat horz))) then
      match armors !! (i - 1)%nat with
      | Some a => (horz - cost a, choice ++ [a])
      | None => st
      end
    else st
  else st.

Definition dynamic_max_defense (armors : ArmorVector) (total_cost : Z) : ArmorVector :=
  let table := build_table armors total_cost in
  snd (for_down (length armors) (choose_step armors table) (total_cost, [])).

(** ** exhaustive_max_defense *)

(** The inner loop: the items whose bit is set in [index], in order. *)
Definition candidate_of (armors : ArmorVector) (n : nat) (index : Z) : ArmorVector :=
  for_up 0 n
    (fun j candidate =>
       if negb (Z.land index (Z.shiftl 1 (Z.of_nat j)) =? 0)
       then match armors !! j with
            | Some a => candidate ++ [a]
            | None => candidate
            end
       else candidate)
    [].

(** The body of the outer loop; the state is [bestset] and [bestdefense]. *)
Definition exhaustive_step (armors : ArmorVector) (n : nat) (total_cost : Q)
    (index : Z) (st : ArmorVector * Q) : outcome (ArmorVector * Q) :=
  let '(bestset, bestdefense) := st in
  let candidate := candidate_of armors n index in
  '(budget, cdefense) ← sum_armor_vector candidate;
  if Qlt_bool bestdefense cdefense && Qle_bool (inject_Z budget) total_cost
  then Ok (candidate, cdefense)
  else Ok (bestset, bestdefense).

(** [for (int index = 0; index < subsetAmt; index++)], with a body that can
    stop the program. *)
Definition for_masks (subsetAmt : Z) (body : Z -> ArmorVector * Q -> outcome (ArmorVector * Q))
    (st : ArmorVector * Q) : outcome (ArmorVector * Q) :=
  fold_left (fun acc index => st ← acc; body (Z.of_nat index) st)
    (seq 0 (Z.to_nat subsetAmt)) (Ok st).

Definition exhaustive_max_defense (armors : ArmorVector) (total_cost : Q)
    : outcome ArmorVector :=
  let n := length armors in
  if negb (n <? 64)%nat then AssertionFailure else
  subsetAmt ← double_to_int (2 ^ Z.of_nat n);
  st ← for_masks subsetAmt (exhaustive_step armors n total_cost) ([], 0%Q);
  Ok (fst st).

(** ** Notions used in the statements *)

(** The tests of the filter that look at the item alone. *)
Definition in_range (min_defense max_defense : Q) (a : ArmorItem) : bool :=
  Qlt_bool 0 (defense a)
  && (Qlt_bool min_defense (defense a) && Qle_bool (defense a) max_defense).

(** The test of the filter on an item, [count] items being already kept. *)
Definition filter_keeps (min_defense max_defense : Q) (total_size : Z)
    (count : nat) (a : ArmorItem) : bool :=
  in_range min_defense max_defense a
  && (Z.of_nat count <? int_to_size_t total_size).

(** The value the second pair of loops leaves in [table[i][j]], read off the
    loop body: row 0 holds zeros, and row [i] is computed from row [i - 1]
    with the test [j - cost > 0] of the source. *)
Fixpoint cell (armors : ArmorVector) (i j : nat) : Q :=
  match i with
  | O => 0%Q
  | S i' =>
      match armors !! i' with
      | Some a =>
          if Z.of_nat j - cost a >? 0
          then max (cell armors i' j)
                   (cell armors i' (Z.to_nat (Z.of_nat j - cost a)) + defense a)%Q
          else cell armors i' j
      | None => cell armors i' j
      end
  end.

(** A table of [n + 1] rows of [W + 1] cells. *)
Definition shaped (n W : nat) (table : table_t) : Prop :=
  length table = S n /\ forall i, (i <= n)%nat -> length (nth i table []) = S W.

(** What holds of [horz] and [choice] in the last loop of the dynamic solver
    when [i] rows are left to visit. *)
Definition walk_invariant (armors : list ArmorItem) (total_cost_arg : Z)
    (i : nat) (st : Z * list ArmorItem) : Prop :=
  let '(horz, choice) := st in
  0 <= horz <= total_cost_arg
  /\ (0 < total_cost_arg -> 0 < horz)
  /\ total_cost choice = total_cost_arg - horz
  /\ (total_defense choice + cell armors i (Z.to_nat horz)
      == cell armors (length armors) (Z.to_nat total_cost_arg))%Q
  /\ Forall (fun a => a ∈ armors) choice.

(** The subset that the exhaustive solver builds for the mask [m]. *)
Definition subset_of (armors : list ArmorItem) (m : Z) : list ArmorItem :=
  candidate_of armors (length armors) m.

(** The items of [l] whose position, counted from [j], is a bit set in [m]. *)
Fixpoint select (m : Z) (j : nat) (l : list ArmorItem) : list ArmorItem :=
  match l with
  | [] => []
  | a :: l' =>
      if Z.testbit m (Z.of_nat j)
      then a :: select m (S j) l'
      else select m (S j) l'
  end.

(** The subset of the mask [m] fits the budget. *)
Definition feasible (armors : list ArmorItem) (budget : Q) (m : Z) : Prop :=
  (inject_Z (total_cost (subset_of armors m)) <= budget)%Q.

(** [m] is the mask the exhaustive solver holds after the masks below [N]:
    mask 0 or a feasible mask, of non-negative defense, that no feasible
    mask below [N] beats and no feasible mask below [m] equals in defense. *)
Definition best_upto (armors : list ArmorItem) (budget : Q) (N m : Z) : Prop :=
  (m = 0 \/ (0 < m < N /\ feasible armors budget m))
  /\ (0 <= total_defense (subset_of armors m))%Q
  /\ forall m', 0 <= m' < N -> feasible armors budget m' ->
       (total_defense (subset_of armors m') <= total_defense (subset_of armors m))%Q
       /\ ((total_defense (subset_of armors m') == total_defense (subset_of armors m))%Q
           -> m <= m').

(** ** The solvers in double arithmetic *)

(** The loops of [sum_armor_vector] and of the two solvers once more, with
    the addition of doubles as a parameter [fadd]; the loops that add no
    defenses ([set_initials], [choose_step], [candidate_of]) are those
    above.  [cell] and [best_upto] are the notions above with [fadd]. *)
Module Rounded.

Section Addition.

(** [x + y] on doubles. *)
Variable fadd : Q -> Q -> Q.

(** The defenses of a vector added one after the other, from [d] on. *)
Definition defense_from (d : Q) (armors : ArmorVector) : Q :=
  fold_left (fun d a => fadd d (defense a)) armors d.

(** The total defense of a vector as [sum_armor_vector] adds it. *)
Definition total_defense (armors : ArmorVector) : Q := defense_from 0 armors.

(** [sum_armor_vector]: [total_defense += armor->defense()] is a sum of
    doubles. *)
Definition sum_armor_vector (armors : ArmorVector) : outcome (Z * Q) :=
  fold_left
    (fun acc armor =>
       '(total_cost, total_defense) ← acc;
       total_cost' ← int_add total_cost (cost armor);
       Ok (total_cost', fadd total_defense (defense armor)))
    armors (Ok (0, 0%Q)).

(** The body of the second pair of loops of [dynamic_max_defense]:
    [table[i - 1][j - cost] + defense] is a sum of doubles. *)
Definition enter_cell (armors : ArmorVector) (i j : nat) (table : table_t) : table_t :=
  match armors !! (i - 1)%nat with
  | Some a =>
      if Z.of_nat j - cost a >? 0
      then wr table i j
             (max (rd table (i - 1) j)
                  (fadd (rd table (i - 1) (Z.to_nat (Z.of_nat j - cost a))) (defense a)))
      else wr table i j (rd table (i - 1) j)
  | None => table
  end.

Definition enter_values (armors : ArmorVector) (total_size : nat) (total_cost : Z)
    (table : table_t) : table_t :=
  for_up 1 total_size
    (fun i table =>
       for_up 1 (Z.to_nat total_cost) (fun j table => enter_cell armors i j table) table)
    table.

Definition build_table (armors : ArmorVector) (total_cost : Z) : table_t :=
  let total_size := length armors in
  enter_values armors total_size total_cost
    (set_initials total_size total_cost (new_table total_size total_cost)).

Definition dynamic_max_defense (armors : ArmorVector) (total_cost : Z) : ArmorVector :=
  let table := build_table armors total_cost in
  snd (for_down (length armors) (choose_step armors table) (total_cost, [])).

(** The body of the outer loop of [exhaustive_max_defense]; the sums are
    those of [sum_armor_vector]. *)
Definition exhaustive_step (armors : ArmorVector) (n : nat) (total_cost : Q)
    (index : Z) (st : ArmorVector * Q) : outcome (ArmorVector * Q) :=
  let '(bestset, bestdefense) := st in
  let candidate := candidate_of armors n index in
  '(budget, cdefense) ← sum_armor_vector candidate;
  if Qlt_bool bestdefense cdefense && Qle_bool (inject_Z budget) total_cost
  then Ok (candidate, cdefense)
  else Ok (bestset, bestdefense).

Definition exhaustive_max_defense (armors : ArmorVector) (total_cost : Q)
    : outcome ArmorVector :=
  let n := length armors in
  if negb (n <? 64)%nat then AssertionFailure else
  subsetAmt ← double_to_int (2 ^ Z.of_nat n);
  st ← for_masks subsetAmt (exhaustive_step armors n total_cost) ([], 0%Q);
  Ok (fst st).

(** The value the second pair of loops leaves in [table[i][j]]. *)
Fixpoint cell (armors : ArmorVector) (i j : nat) : Q :=
  match i with
  | O => 0%Q
  | S i' =>
      match armors !! i' with
      | Some a =>
          if Z.of_nat j - cost a >? 0
          then max (cell armors i' j)
                   (fadd (cell armors i' (Z.to_nat (Z.of_nat j - cost a))) (defense a))
          else cell armors i' j
      | None => cell armors i' j
      end
  end.

(** [m] is the mask the exhaustive solver holds after the masks below [N],
    the defenses of a subset being added as [sum_armor_vector] adds them. *)
Definition best_upto (armors : list ArmorItem) (budget : Q) (N m : Z) : Prop :=
  (m = 0 \/ (0 < m < N /\ feasible armors budget m))
  /\ (0 <= total_defense (subset_of armors m))%Q
  /\ forall m', 0 <= m' < N -> feasible armors budget m' ->
       (total_defense (subset_of armors m') <= total_defense (subset_of armors m))%Q
       /\ ((total_defense (subset_of armors m') == total_defense (subset_of armors m))%Q
           -> m <= m').

End Addition.

End Rounded.

(** ** The addition of doubles *)

(** [floor (log2 x)] for [x > 0]. *)
Definition ilog2 (x : Q) : Z :=
  let e := Z.log2 (Qnum x) - Z.log2 (Z.pos (Qden x)) in
  if Qle_bool (Qpower 2 e) x then e else e - 1.

(** The integer nearest to [x], the even one of two that are as near. *)
Definition round_half_even (x : Q) : Z :=
  let f := Qfloor x in
  match (x - inject_Z f ?= 1 # 2)%Q with
  | Lt => f
  | Gt => f + 1
  | Eq => if Z.even f then f else f + 1
  end.

(** The double nearest to [x]: a multiple of the unit in the last place,
    [2^(e - 52)] for [2^e <= |x| < 2^(e + 1)], and [2^(-1074)] below the
    normal range. *)
Definition binary64_round (x : Q) : Q :=
  if Qeq_bool x 0 then 0%Q
  else
    let e := Z.max (ilog2 (Qabs x)) (-1022) in
    let ulp := Qpower 2 (e - 52) in
    Qred (inject_Z (round_half_even (x / ulp)) * ulp).

(** [x + y] on doubles. *)
Definition binary64_add (x y : Q) : Q := binary64_round (x + y).

(** The exponent that [binary64_round] gives a number other than 0, and the
    multiple of the unit in the last place that it rounds to. *)
Definition exponent_of (x : Q) : Z := Z.max (ilog2 (Qabs x)) (-1022).

Definition rounded_at (e : Z) (x : Q) : Q :=
  (inject_Z (round_half_even (x / 2 ^ (e - 52))) * 2 ^ (e - 52))%Q.

(** The rational that a primitive float holds (0 for infinities and NaN). *)
Definition Q_of_float (f : float) : Q :=
  match Prim2SF f with
  | S754_finite s m e =>
      Qred (inject_Z (if s then Z.neg m else Z.pos m) * Qpower 2 e)
  | _ => 0%Q
  end.

(** ** The constructor of ArmorItem *)

(** Conversion of a [size_t] to [int]: the value modulo [2^32], read as a
    signed number, as two's complement targets do (and C++20 requires). *)
Definition size_t_to_int (z : Z) : Z := (z + 2 ^ 31) mod 2 ^ 32 - 2 ^ 31.

(** [ArmorItem(description, cost_gold, defense_points)], [cost_gold] being a
    [size_t]: the members are initialised, the cost into an [int], and the
    two assertions are on the arguments. *)
Definition new_ArmorItem (description : string) (cost_gold : Z)
    (defense_points : Q) : outcome ArmorItem :=
  if String.eqb description "" then AssertionFailure
  else if negb (cost_gold >? 0) then AssertionFailure
  else Ok (mkArmorItem description (size_t_to_int cost_gold) defense_points).


(** ** print_2d_cache *)

(** What goes to [std::cout]: text, a number under [setw(5)], [std::endl]. *)
Inductive output : Type :=
| Text (s : string)
| Number (v : Q)
| Endl.

(** [cache[1]] is read without a bound check as soon as the cache has a row
    and at most 250 of them. *)
Definition print_2d_cache (cache : table_t) : outcome (list output) :=
  let title := [Text "*** 2D Cache ***"; Endl] in
  if (length cache =? 0)%nat then Ok (title ++ [Text "[empty]"; Endl])
  else if (250 <? length cache)%nat then Ok (title ++ [Text "[too large]"; Endl])
  else
    match cache !! 1%nat with
    | None => UndefinedBehaviour
    | Some row1 =>
        if (250 <? length row1)%nat
        then Ok (title ++ [Text "[too large]"; Endl])
        else Ok (title ++ concat (map (fun row => map Number row ++ [Endl]) cache))
    end.

(** ** load_armor_database *)

(** One call of [std::getline(in, x, delim)], [s] being what is left to read:
    the call fails when nothing is left; otherwise [x] is what precedes the
    first [delim], which is read and dropped, or all of [s] without one. *)
Fixpoint getline_from (delim : ascii) (s : string) : string * string :=
  match s with
  | EmptyString => (EmptyString, EmptyString)
  | String c s' =>
      if Ascii.eqb c delim then (EmptyString, s')
      else let '(x, rest) := getline_from delim s' in (String c x, rest)
  end.

Definition getline (delim : ascii) (s : string) : option (string * string) :=
  match s with
  | EmptyString => None
  | _ => Some (getline_from delim s)
  end.

(** [for (std::string x; std::getline(in, x, delim); ) v.push_back(x);]
    every turn reads at least one character, so the length of the text is
    fuel enough. *)
Fixpoint read_all (fuel : nat) (delim : ascii) (s : string) (v : list string)
    : list string :=
  match fuel with
  | O => v
  | S fuel' =>
      match getline delim s with
      | None => v
      | Some (x, rest) => read_all fuel' delim rest (v ++ [x])
      end
  end.

Definition fields_of (line : string) : list string :=
  read_all (String.length line) "^"%char line [].

Definition lines_of (content : string) : list string :=
  read_all (String.length content) "010"%char content [].

(** Conversion of a double to [size_t]: the fraction is dropped, and the
    result is undefined unless it fits. *)
Definition Qtruncate (x : Q) : Z := if Qle_bool 0 x then Qfloor x else Qceiling x.

Definition double_to_size_t (x : Q) : outcome Z :=
  let t := Qtruncate x in
  if (0 <=? t) && (t <? 2 ^ 64) then Ok t else UndefinedBehaviour.

Section Loader.

(** What [ss >> output] leaves in [output] for the text of a field: the
    number read, or what the library stores when it reads none. *)
Variable read_double : string -> Q.

(** The lambda [parse_dbl]: a stream built on a string is always good, so
    the test [!ss] never holds and the result is always [true]. *)
Definition parse_dbl (field : string) : bool * Q := (true, read_double field).

(** The body of the loop on the lines, past the header; [None] is the
    [nullptr] of a failed load. *)
Definition load_line (line : string) (result : list ArmorItem)
    : outcome (option (list ArmorItem)) :=
  let fields := fields_of line in
  if negb (length fields =? 3)%nat then Ok None
  else
    let descr_field := nth 0 fields EmptyString in
    let cost_gold_field := nth 1 fields EmptyString in
    let defense_points_field := nth 2 fields EmptyString in
    let '(ok_cost, cost_gold) := parse_dbl cost_gold_field in
    let '(ok_defense, defense_points) := parse_dbl defense_points_field in
    if ok_cost && ok_defense then
      cost_gold' ← double_to_size_t cost_gold;
      item ← new_ArmorItem descr_field cost_gold' defense_points;
      Ok (Some (result ++ [item]))
    else Ok (Some result).

(** The loop on the lines; [line_number] counts the lines read so far. *)
Fixpoint load_lines (lines : list string) (line_number : nat)
    (result : list ArmorItem) : outcome (option (list ArmorItem)) :=
  match lines with
  | [] => Ok (Some result)
  | line :: lines' =>
      let line_number := S line_number in
      if (line_number =? 1)%nat then load_lines lines' line_number result
      else
        r ← load_line line result;
        match r with
        | None => Ok None
        | Some result' => load_lines lines' line_number result'
        end
  end.

(** [file] is the content found at [path], [None] when it cannot be opened. *)
Definition load_armor_database (file : option string)
    : outcome (option (list ArmorItem)) :=
  match file with
  | None => Ok None
  | Some content => load_lines (lines_of content) 0 []
  end.

End Loader.

(** A reader of unsigned decimal numbers, 0 for any other text. *)
Definition digit_of (c : ascii) : option Z :=
  let n := Z.of_nat (nat_of_ascii c) in
  if (48 <=? n) && (n <=? 57) then Some (n - 48) else None.

Fixpoint read_digits_from (s : string) (acc : Z) : option Z :=
  match s with
  | EmptyString => Some acc
  | String c s' =>
      match digit_of c with
      | Some d => read_digits_from s' (10 * acc + d)
      | None => None
      end
  end.

Definition read_digits (s : string) : Q :=
  match s with
  | EmptyString => 0%Q
  | _ => match read_digits_from s 0 with
         | Some z => inject_Z z
         | None => 0%Q
         end
  end.

(** The two lines every call of [print_2d_cache] may end on. *)
Definition cache_title : list output := [Text "*** 2D Cache ***"; Endl].
Definition cache_too_large : list output := [Text "[too large]"; Endl].

(** [s] holds the character [delim]. *)
Fixpoint contains (delim : ascii) (s : string) : bool :=
  match s with
  | EmptyString => false
  | String c s' => Ascii.eqb c delim || contains delim s'
  end.

(** The fields put back in a row, each followed by [delim]. *)
Fixpoint terminate (delim : ascii) (fields : list string) : string :=
  match fields with
  | [] => EmptyString
  | x :: fields' => (x ++ String delim (terminate delim fields'))%string
  end.

(** [s], with a final [delim] added when it is not empty and has none. *)
Fixpoint normalise (delim : ascii) (s : string) : string :=
  match s with
  | EmptyString => EmptyString
  | String c s' =>
      match s' with
      | EmptyString =>
          if Ascii.eqb c delim then String c EmptyString
          else String c (String delim EmptyString)
      | _ => String c (normalise delim s')
      end
  end.

(** The item that the loader makes of a line of three fields. *)
Definition item_of_line (read_double : string -> Q) (line : string) : ArmorItem :=
  mkArmorItem
    (nth 0 (fields_of line) EmptyString)
    (size_t_to_int (Qtruncate (read_double (nth 1 (fields_of line) EmptyString))))
    (read_double (nth 2 (fields_of line) EmptyString)).

(** The lines that the loader turns into an item: three fields, a
    description that is not empty, a cost whose integer part is a [size_t]
    other than 0. *)
Definition good_line (read_double : string -> Q) (line : string) : Prop :=
  length (fields_of line) = 3%nat
  /\ nth 0 (fields_of line) EmptyString <> EmptyString
  /\ 0 < Qtruncate (read_double (nth 1 (fields_of line) EmptyString)) < 2 ^ 64.

(** ** Inputs used below *)

Definition helmet : ArmorItem := mkArmorItem "helmet" 3 4.
Definition shield : ArmorItem := mkArmorItem "shield" 4 5.
Definition boots : ArmorItem := mkArmorItem "boots" 2 3.
Definition amulet : ArmorItem := mkArmorItem "amulet" 5 4.
Definition ring : ArmorItem := mkArmorItem "ring" 1 1.
Definition rags : ArmorItem := mkArmorItem "rags" 1 (-1).

(** Two items whose costs add up to [2^31]. *)
Definition plate : ArmorItem := mkArmorItem "plate" (2 ^ 30) 9.
Definition mail : ArmorItem := mkArmorItem "mail" (2 ^ 30) 7.

(** Items whose defenses are the doubles written 0.6, 0.3, 0.2 and 0.1. *)
Definition cuirass : ArmorItem := mkArmorItem "cuirass" 4 (binary64_round (6 # 10)).
Definition greaves : ArmorItem := mkArmorItem "greaves" 1 (binary64_round (3 # 10)).
Definition gloves : ArmorItem := mkArmorItem "gloves" 1 (binary64_round (2 # 10)).
Definition cap : ArmorItem := mkArmorItem "cap" 1 (binary64_round (1 # 10)).

(** Two items whose defenses add up to [2^53 + 1], which no double holds. *)
Definition aegis : ArmorItem := mkArmorItem "aegis" 1 (inject_Z (2 ^ 53)).
Definition charm : ArmorItem := mkArmorItem "charm" 1 1.

#[local] Set Warnings "-inexact-float".

(** Doubles on which [binary64_add] is compared with the addition of the
    primitive floats, which the machine computes. *)
Definition float_samples : list float :=
  [0; 0.1; 0.2; 0.3; 0.30000000000000004; 0.4; 0.5; 0.6; 0.6000000000000001;
   1; 1.5; -0.1; -2.5; 9007199254740992; 9007199254740994; 1e300; 1e-310;
   5e-324]%float.

Definition agrees_with_primitive (x y : float) : bool :=
  Qeq_bool (binary64_add (Q_of_float x) (Q_of_float y))
           (Q_of_float (PrimFloat.add x y)).

(** * Properties *)

(** ** Comparison of doubles *)

Lemma Qlt_bool_iff (x y : Q) : Qlt_bool x y = true <-> (x < y)%Q.
Proof.
  unfold Qlt_bool. rewrite negb_true_iff, <- not_true_iff_false, Qle_bool_iff.
  split; [apply Qnot_le_lt | apply Qlt_not_le].
Qed.

Lemma Qlt_bool_false (x y : Q) : Qlt_bool x y = false <-> (y <= x)%Q.
Proof.
  unfold Qlt_bool. rewrite negb_false_iff. apply Qle_bool_iff.
Qed.

Lemma Qle_bool_false (x y : Q) : Qle_bool x y = false <-> (y < x)%Q.
Proof.
  rewrite <- not_true_iff_false, Qle_bool_iff.
  split; [apply Qnot_le_lt | apply Qlt_not_le].
Qed.

Lemma Qeq_bool_false (x y : Q) : Qeq_bool x y = false <-> ~ (x == y)%Q.
Proof. rewrite <- not_true_iff_false, Qeq_bool_iff. tauto. Qed.



(** ** The filter *)

Section Filter.

Variables (min_defense max_defense : Q) (total_size : Z).

Let step := filter_step min_defense max_defense total_size.
Let cap := int_to_size_t total_size.

Lemma filter_step_keeps (kept : ArmorVector) (a : ArmorItem) :
  step kept a =
    if filter_keeps min_defense max_defense total_size (length kept) a
    then kept ++ [a] else kept.
Proof.
  unfold step, filter_step, filter_keeps, in_range.
  destruct (Qlt_bool 0 (defense a)); simpl; [|reflexivity].
  destruct (Z.of_nat (length kept) <? int_to_size_t total_size);
    simpl; [|now rewrite andb_false_r].
  now rewrite andb_true_r.
Qed.

Lemma cap_nonneg : 0 <= cap.
Proof. unfold cap, int_to_size_t. apply Z.mod_pos_bound. lia. Qed.

(** The loop only ever appends. *)
Lemma filter_loop_extends (source kept : ArmorVector) :
  exists rest, fold_left step source kept = kept ++ rest.
Proof.
  revert kept. induction source as [|a source IH]; intros kept; simpl.
  - exists []. now rewrite app_nil_r.
  - destruct (IH (step kept a)) as [rest Hrest]. rewrite Hrest.
    rewrite filter_step_keeps.
    destruct (filter_keeps _ _ _ _ a).
    + exists (a :: rest). now rewrite <- app_assoc.
    + now exists rest.
Qed.

(** What the loop keeps passes the tests on the defense, and the size
    never goes past the converted limit. *)
Lemma filter_loop_invariant (source kept : ArmorVector) :
  Forall (fun a => in_range min_defense max_defense a = true) kept ->
  Z.of_nat (length kept) <= cap ->
  Forall (fun a => in_range min_defense max_defense a = true)
    (fold_left step source kept)
  /\ Z.of_nat (length (fold_left step source kept)) <= cap.
Proof.
  revert kept. induction source as [|a source IH]; intros kept Hall Hlen; simpl.
  - now split.
  - apply IH; rewrite filter_step_keeps; unfold filter_keeps;
      destruct (in_range min_defense max_defense a) eqn:Hr; simpl; trivial;
      fold cap; destruct (Z.of_nat (length kept) <? cap) eqn:Hc; trivial.
    + apply Forall_app; split; [assumption|]. now constructor.
    + rewrite length_app. simpl. apply Z.ltb_lt in Hc. lia.
Qed.

(** Below the converted limit, the loop is the plain filter. *)
Lemma filter_loop_uncapped (source kept : ArmorVector) :
  Z.of_nat (length kept) + Z.of_nat (length source) <= cap ->
  fold_left step source kept
  = kept ++ List.filter (in_range min_defense max_defense) source.
Proof.
  revert kept. induction source as [|a source IH]; intros kept Hlen; simpl.
  - now rewrite app_nil_r.
  - simpl in Hlen. rewrite filter_step_keeps. unfold filter_keeps. fold cap.
    replace (Z.of_nat (length kept) <? cap) with true
      by (symmetry; apply Z.ltb_lt; lia).
    rewrite andb_true_r.
    destruct (in_range min_defense max_defense a).
    + rewrite IH by (rewrite length_app; simpl; lia).
      now rewrite <- app_assoc.
    + apply IH. lia.
Qed.

(** A vector that passes the tests and fits the limit is kept whole. *)
Lemma filter_loop_all (source kept : ArmorVector) :
  Forall (fun a => in_range min_defense max_defense a = true) source ->
  Z.of_nat (length kept) + Z.of_nat (length source) <= cap ->
  fold_left step source kept = kept ++ source.
Proof.
  intros Hall Hlen. rewrite filter_loop_uncapped by assumption.
  f_equal. induction Hall as [|a source Ha Hall IH]; simpl; [reflexivity|].
  rewrite Ha. f_equal. apply IH. simpl in Hlen. lia.
Qed.

End Filter.

Lemma in_range_iff (min_defense max_defense : Q) (a : ArmorItem) :
  in_range min_defense max_defense a = true
  <-> (0 < defense a)%Q /\ (min_defense < defense a)%Q /\ (defense a <= max_defense)%Q.
Proof.
  unfold in_range.
  now rewrite !andb_true_iff, !Qlt_bool_iff, Qle_bool_iff.
Qed.

Lemma filter_keeps_iff (min_defense max_defense : Q) (total_size : Z)
    (count : nat) (a : ArmorItem) :
  filter_keeps min_defense max_defense total_size count a = true
  <-> ((0 < defense a)%Q /\ (min_defense < defense a)%Q /\ (defense a <= max_defense)%Q)
      /\ Z.of_nat count < int_to_size_t total_size.
Proof.
  unfold filter_keeps. now rewrite andb_true_iff, in_range_iff, Z.ltb_lt.
Qed.

Lemma int_to_size_t_nonneg (z : Z) : 0 <= z <= INT_MAX -> int_to_size_t z = z.
Proof.
  unfold INT_MAX, int_to_size_t. intros H. apply Z.mod_small. lia.
Qed.

Lemma int_to_size_t_neg (z : Z) : INT_MIN <= z < 0 -> int_to_size_t z = 2 ^ 64 + z.
Proof.
  unfold INT_MIN, int_to_size_t. intros H.
  symmetry. apply (Zmod_unique _ _ (-1)); lia.
Qed.

Lemma app_one_neq {A : Type} (l : list A) (x : A) : l ++ [x] <> l.
Proof.
  intros H. apply (f_equal (@length A)) in H. rewrite length_app in H.
  simpl in H. lia.
Qed.

(** C5 (as amended): the filter appends the item met after the prefix [pre]
    if and only if its defense is strictly positive, lies in
    (min_defense, max_defense], and the number of items kept so far is below
    the limit converted to [size_t]; otherwise it leaves the result as it
    is, and what is kept stays a prefix of the final result.  Every item
    returned has a positive defense within the bounds, and for a
    non-negative limit the result holds at most [limit] items. *)
Theorem filter_armor_vector_rule (source : ArmorVector)
    (min_defense max_defense : Q) (limit : Z) :
  INT_MIN <= limit <= INT_MAX ->
  (forall pre a post, source = pre ++ a :: post ->
     let kept := filter_armor_vector pre min_defense max_defense limit in
     let included :=
       ((0 < defense a)%Q /\ (min_defense < defense a)%Q
        /\ (defense a <= max_defense)%Q)
       /\ Z.of_nat (length kept) < int_to_size_t limit in
     (included <->
      filter_armor_vector (pre ++ [a]) min_defense max_defense limit = kept ++ [a])
     /\ (~ included <->
         filter_armor_vector (pre ++ [a]) min_defense max_defense limit = kept)
     /\ exists rest,
         filter_armor_vector source min_defense max_defense limit
         = filter_armor_vector (pre ++ [a]) min_defense max_defense limit ++ rest)
  /\ Forall (fun a => (0 < defense a)%Q /\ (min_defense < defense a)%Q
                      /\ (defense a <= max_defense)%Q)
       (filter_armor_vector source min_defense max_defense limit)
  /\ (0 <= limit ->
      int_to_size_t limit = limit
      /\ Z.of_nat (length (filter_armor_vector source min_defense max_defense limit))
         <= limit).
Proof.
  intros Hint. split; [|split].
  - intros pre a post -> kept included.
    assert (Hstep : filter_armor_vector (pre ++ [a]) min_defense max_defense limit
                    = if filter_keeps min_defense max_defense limit (length kept) a
                      then kept ++ [a] else kept).
    { unfold filter_armor_vector. rewrite fold_left_app. simpl.
      apply filter_step_keeps. }
    pose proof (filter_keeps_iff min_defense max_defense limit (length kept) a) as Hk.
    fold included in Hk.
    split; [|split].
    + rewrite Hstep. destruct (filter_keeps _ _ _ _ a).
      * split; [reflexivity|]. intros _. now apply Hk.
      * split; [intros Hi; apply Hk in Hi; discriminate|].
        intros Heq. symmetry in Heq. now apply app_one_neq in Heq.
    + rewrite Hstep. destruct (filter_keeps _ _ _ _ a).
      * split; [intros Hn; exfalso; apply Hn; now apply Hk|].
        intros Heq. now apply app_one_neq in Heq.
      * split; [reflexivity|]. intros _ Hi. apply Hk in Hi. discriminate.
    + unfold filter_armor_vector.
      replace (pre ++ a :: post) with ((pre ++ [a]) ++ post)
        by now rewrite <- app_assoc.
      rewrite (fold_left_app _ (pre ++ [a]) post).
      apply filter_loop_extends.
  - destruct (filter_loop_invariant min_defense max_defense limit source [])
      as [Hall _]; [constructor | apply cap_nonneg |].
    eapply List.Forall_impl; [|exact Hall]. intros a Ha. now apply in_range_iff.
  - intros Hpos. rewrite int_to_size_t_nonneg by lia. split; [reflexivity|].
    destruct (filter_loop_invariant min_defense max_defense limit source [])
      as [_ Hlen]; [constructor | apply cap_nonneg |].
    rewrite int_to_size_t_nonneg in Hlen by lia. exact Hlen.
Qed.

(** C6: filtering an already filtered vector with the same bounds and the
    same limit changes nothing. *)
Theorem filter_armor_vector_idempotent (C : ArmorVector) (lo hi : Q) (k : Z) :
  filter_armor_vector (filter_armor_vector C lo hi k) lo hi k
  = filter_armor_vector C lo hi k.
Proof.
  destruct (filter_loop_invariant lo hi k C []) as [Hall Hlen];
    [constructor | apply cap_nonneg |].
  unfold filter_armor_vector at 1.
  now rewrite filter_loop_all.
Qed.

(** C10: with a strictly negative limit there is no cap: the result is the
    items of the source with a strictly positive defense in
    (min_defense, max_defense], in the order of the source. *)
Theorem filter_armor_vector_negative_limit (source : ArmorVector)
    (min_defense max_defense : Q) (limit : Z) :
  INT_MIN <= limit < 0 ->
  Z.of_nat (length source) <= INT_MAX ->
  filter_armor_vector source min_defense max_defense limit
  = List.filter (in_range min_defense max_defense) source
  /\ forall a, In a (filter_armor_vector source min_defense max_defense limit)
               <-> In a source /\ (0 < defense a)%Q /\ (min_defense < defense a)%Q
                   /\ (defense a <= max_defense)%Q.
Proof.
  intros Hlimit Hlen.
  assert (Heq : filter_armor_vector source min_defense max_defense limit
                = List.filter (in_range min_defense max_defense) source).
  { unfold filter_armor_vector. rewrite filter_loop_uncapped; [reflexivity|].
    rewrite int_to_size_t_neg by assumption.
    unfold INT_MIN, INT_MAX in *. simpl length. lia. }
  split; [exact Heq|].
  intros a. rewrite Heq, filter_In, in_range_iff. tauto.
Qed.

(** ** Loops *)

Lemma for_up_ind {T : Type} (P : nat -> T -> Prop) (lo count : nat)
    (body : nat -> T -> T) (s : T) :
  P lo s ->
  (forall k s, (lo <= k < lo + count)%nat -> P k s -> P (S k) (body k s)) ->
  P (lo + count)%nat (for_up lo count body s).
Proof.
  unfold for_up. revert lo s.
  induction count as [|count IH]; intros lo s H0 Hstep; simpl.
  - now rewrite Nat.add_0_r.
  - rewrite <- Nat.add_succ_comm. apply IH.
    + apply Hstep; [lia | assumption].
    + intros k s' Hk. apply Hstep. lia.
Qed.

Lemma for_down_ind {T : Type} (P : nat -> T -> Prop) (hi : nat)
    (body : nat -> T -> T) (s : T) :
  P hi s ->
  (forall k s, (1 <= k <= hi)%nat -> P k s -> P (k - 1)%nat (body k s)) ->
  P O (for_down hi body s).
Proof.
  unfold for_down. revert s.
  induction hi as [|hi IH]; intros s H0 Hstep; [assumption|].
  rewrite seq_S, rev_app_distr. simpl. apply IH.
  - specialize (Hstep (S hi) s). simpl in Hstep.
    rewrite Nat.sub_0_r in Hstep. apply Hstep; [lia | assumption].
  - intros k s' Hk. apply Hstep. lia.
Qed.

(** ** Reading and writing the table *)

Lemma nth_insert_eq {A : Type} (l : list A) (i : nat) (x d : A) :
  (i < length l)%nat -> nth i (<[i:=x]> l) d = x.
Proof.
  intros Hi. rewrite nth_lookup, list_lookup_insert_eq by assumption. reflexivity.
Qed.

Lemma nth_insert_ne {A : Type} (l : list A) (i j : nat) (x d : A) :
  i <> j -> nth j (<[i:=x]> l) d = nth j l d.
Proof.
  intros Hij. rewrite !nth_lookup, list_lookup_insert_ne by assumption. reflexivity.
Qed.

Lemma shaped_wr (n W : nat) (table : table_t) (i j : nat) (v : Q) :
  shaped n W table -> shaped n W (wr table i j v).
Proof.
  intros [Hrows Hcols]. unfold wr. split.
  - now rewrite length_insert.
  - intros i' Hi'. destruct (Nat.eq_dec i i') as [->|Hne].
    + rewrite nth_insert_eq by lia. rewrite length_insert. now apply Hcols.
    + rewrite nth_insert_ne by assumption. now apply Hcols.
Qed.

Lemma rd_wr_same (n W : nat) (table : table_t) (i j : nat) (v : Q) :
  shaped n W table -> (i <= n)%nat -> (j <= W)%nat ->
  rd (wr table i j v) i j = v.
Proof.
  intros [Hrows Hcols] Hi Hj. unfold rd, wr.
  rewrite nth_insert_eq by lia. apply nth_insert_eq.
  rewrite Hcols by assumption. lia.
Qed.

Lemma rd_wr_other (table : table_t) (i j i' j' : nat) (v : Q) :
  i' <> i \/ j' <> j ->
  rd (wr table i j v) i' j' = rd table i' j'.
Proof.
  intros Hne. unfold rd, wr.
  destruct (Nat.eq_dec i i') as [->|Hi].
  - destruct (Nat.lt_ge_cases i' (length table)) as [Hlt|Hge].
    + rewrite nth_insert_eq by assumption.
      apply nth_insert_ne. destruct Hne; congruence.
    + now rewrite list_insert_ge by assumption.
  - now rewrite nth_insert_ne by assumption.
Qed.

Lemma nth_repeat_lt {A : Type} (x d : A) (m i : nat) :
  (i < m)%nat -> nth i (repeat x m) d = x.
Proof.
  revert i. induction m as [|m IH]; intros i Hi; [lia|].
  destruct i as [|i]; simpl; [reflexivity|]. apply IH. lia.
Qed.

Lemma rd_new_table (total_size : nat) (total_cost : Z) (i j : nat) :
  rd (new_table total_size total_cost) i j = 0%Q.
Proof.
  unfold rd, new_table.
  destruct (Nat.lt_ge_cases i (total_size + 1)) as [Hlt|Hge].
  - rewrite nth_repeat_lt by assumption. apply nth_repeat.
  - rewrite (nth_overflow (repeat _ _) []) by (rewrite repeat_length; lia).
    now destruct j.
Qed.

Lemma shaped_new_table (total_size : nat) (total_cost : Z) :
  0 <= total_cost ->
  shaped total_size (Z.to_nat total_cost) (new_table total_size total_cost).
Proof.
  intros Hpos. unfold new_table. split.
  - rewrite repeat_length. lia.
  - intros i Hi. rewrite nth_repeat_lt by lia. rewrite repeat_length. lia.
Qed.

(** ** The table of the dynamic solver *)

Section Table.

Variables (armors : list ArmorItem) (total_cost : Z).
Hypothesis costs_positive : Forall (fun a => 0 < cost a) armors.
Hypothesis budget_nonneg : 0 <= total_cost.

Let n := length armors.
Let W := Z.to_nat total_cost.

Lemma cell_column_0 (i : nat) : cell armors i 0 = 0%Q.
Proof.
  induction i as [|i IH]; simpl; [reflexivity|].
  destruct (armors !! i) as [a|] eqn:Ha; [|exact IH].
  assert (0 < cost a).
  { exact (Forall_lookup_1 _ _ _ _ costs_positive Ha). }
  replace (Z.of_nat 0 - cost a >? 0) with false
    by (symmetry; rewrite Z.gtb_ltb; apply Z.ltb_ge; lia).
  exact IH.
Qed.

(** Rows and column 0 keep their zeros through the first pair of loops. *)
Lemma set_initials_spec :
  let table := set_initials n total_cost (new_table n total_cost) in
  shaped n W table
  /\ (forall j, rd table 0 j = 0%Q)
  /\ (forall i, rd table i 0 = 0%Q).
Proof.
  unfold set_initials.
  set (P := fun table : table_t =>
              shaped n W table /\ (forall j, rd table 0 j = 0%Q)
              /\ (forall i, rd table i 0 = 0%Q)).
  apply (for_up_ind (fun _ => P)).
  - split; [apply (shaped_new_table n total_cost budget_nonneg)|].
    split; intros; apply rd_new_table.
  - intros i table Hi HP.
    apply (for_up_ind (fun _ => P)); [exact HP|].
    intros j table' Hj (Hs & Hrow & Hcol).
    split; [apply shaped_wr, Hs|]. split.
    + intros j'. rewrite rd_wr_other by lia. apply Hrow.
    + intros i'. rewrite rd_wr_other by lia. apply Hcol.
Qed.

(** One cell of the second pair of loops. *)
Lemma enter_cell_spec (i j : nat) (table : table_t) :
  (1 <= i <= n)%nat -> (1 <= j <= W)%nat ->
  shaped n W table ->
  (forall i' j', (i' < i)%nat -> (j' <= W)%nat -> rd table i' j' = cell armors i' j') ->
  let table' := enter_cell armors i j table in
  shaped n W table'
  /\ rd table' i j = cell armors i j
  /\ (forall i' j', i' <> i \/ j' <> j -> rd table' i' j' = rd table i' j').
Proof.
  intros Hi Hj Hs Hprev. unfold enter_cell.
  destruct i as [|i]; [lia|].
  replace (S i - 1)%nat with i by lia. simpl cell.
  destruct (lookup_lt_is_Some_2 armors i) as [a Ha]; [fold n; lia|].
  rewrite Ha.
  assert (0 < cost a).
  { exact (Forall_lookup_1 _ _ _ _ costs_positive Ha). }
  destruct (Z.of_nat j - cost a >? 0) eqn:Hfit; simpl.
  - apply Z.gtb_lt in Hfit.
    split; [apply shaped_wr, Hs|]. split.
    + rewrite (rd_wr_same n W) by (trivial; lia).
      rewrite !Hprev by lia. reflexivity.
    + intros i' j' Hne. now apply rd_wr_other.
  - split; [apply shaped_wr, Hs|]. split.
    + rewrite (rd_wr_same n W) by (trivial; lia).
      rewrite Hprev by lia. reflexivity.
    + intros i' j' Hne. now apply rd_wr_other.
Qed.

(** The table the reconstruction reads: every cell holds [cell]. *)
Lemma build_table_spec :
  shaped n W (build_table armors total_cost)
  /\ forall i j, (i <= n)%nat -> (j <= W)%nat ->
       rd (build_table armors total_cost) i j = cell armors i j.
Proof.
  unfold build_table. fold n.
  destruct set_initials_spec as (Hs0 & Hrow0 & Hcol0).
  set (t0 := set_initials n total_cost (new_table n total_cost)) in *.
  set (Inv := fun (k : nat) (table : table_t) =>
                shaped n W table
                /\ (forall i, rd table i 0 = 0%Q)
                /\ (forall i j, (i < k)%nat -> (j <= W)%nat ->
                      rd table i j = cell armors i j)).
  assert (HInv : Inv (1 + n)%nat (enter_values armors n total_cost t0)).
  { unfold enter_values. apply (for_up_ind Inv).
    - split; [exact Hs0|]. split; [exact Hcol0|].
      intros i j Hi Hj. replace i with O by lia. simpl. apply Hrow0.
    - intros k table Hk (Hs & Hcol & Hdone).
      set (Inv2 := fun (m : nat) (table' : table_t) =>
                     Inv k table'
                     /\ (forall j, (1 <= j < m)%nat ->
                           rd table' k j = cell armors k j)).
      assert (HInv2 : Inv2 (1 + W)%nat
                (for_up 1 (Z.to_nat total_cost)
                   (fun j table' => enter_cell armors k j table') table)).
      { apply (for_up_ind Inv2).
        - split; [split; [exact Hs|split; assumption]|]. intros j Hj. lia.
        - intros m table' Hm ((Hs' & Hcol' & Hdone') & Hrow').
          fold W in Hm.
          destruct (enter_cell_spec k m table') as (Hs'' & Hnew & Hold);
            trivial; try lia.
          split; [split; [exact Hs''|split]|].
          + intros i. rewrite Hold by lia. apply Hcol'.
          + intros i j Hi Hj. rewrite Hold by lia. now apply Hdone'.
          + intros j Hj. destruct (Nat.eq_dec j m) as [->|Hjm]; [exact Hnew|].
            rewrite Hold by lia. apply Hrow'. lia. }
      destruct HInv2 as ((Hs' & Hcol' & Hdone') & Hrow').
      split; [exact Hs'|]. split; [exact Hcol'|].
      intros i j Hi Hj. destruct (Nat.eq_dec i k) as [->|Hik].
      + destruct j as [|j]; [rewrite cell_column_0; apply Hcol'|].
        apply Hrow'. lia.
      + apply Hdone'; lia. }
  destruct HInv as (Hs & _ & Hdone). split; [exact Hs|].
  intros i j Hi Hj. apply Hdone; lia.
Qed.

End Table.

(** ** The values of the table *)

Lemma max_cases (a b : Q) :
  (max a b = a /\ (b <= a)%Q) \/ (max a b = b /\ (a < b)%Q).
Proof.
  unfold max. destruct (Qle_bool b a) eqn:Hle.
  - left. split; [reflexivity|]. now apply Qle_bool_iff.
  - right. split; [reflexivity|]. now apply Qle_bool_false.
Qed.

Lemma cell_succ_cases (armors : list ArmorItem) (i j : nat) :
  cell armors (S i) j = cell armors i j
  \/ exists a, armors !! i = Some a
               /\ Z.of_nat j - cost a > 0
               /\ (cell armors i j < cell armors (S i) j)%Q
               /\ cell armors (S i) j
                  = (cell armors i (Z.to_nat (Z.of_nat j - cost a)) + defense a)%Q.
Proof.
  simpl. destruct (armors !! i) as [a|]; [|now left].
  destruct (Z.of_nat j - cost a >? 0) eqn:Hfit; [|now left].
  destruct (max_cases (cell armors i j)
              (cell armors i (Z.to_nat (Z.of_nat j - cost a)) + defense a))
    as [[-> _]|[-> Hlt]]; [now left|].
  right. exists a. apply Z.gtb_lt in Hfit. repeat split; trivial. lia.
Qed.

Lemma cell_row_le (armors : list ArmorItem) (i j : nat) :
  (cell armors i j <= cell armors (S i) j)%Q.
Proof.
  destruct (cell_succ_cases armors i j) as [->|(a & _ & _ & Hlt & _)].
  - apply Qle_refl.
  - now apply Qlt_le_weak.
Qed.

Lemma cell_nonneg (armors : list ArmorItem) (i j : nat) :
  (0 <= cell armors i j)%Q.
Proof.
  induction i as [|i IH]; [apply Qle_refl|].
  eapply Qle_trans; [exact IH | apply cell_row_le].
Qed.


(** ** The sums of a vector *)

Lemma total_cost_app (l : list ArmorItem) (a : ArmorItem) :
  total_cost (l ++ [a]) = total_cost l + cost a.
Proof. unfold total_cost. now rewrite fold_left_app. Qed.

Lemma total_defense_app (l : list ArmorItem) (a : ArmorItem) :
  total_defense (l ++ [a]) = (total_defense l + defense a)%Q.
Proof. unfold total_defense. now rewrite fold_left_app. Qed.

(** ** The reconstruction of the dynamic solver *)

Section Reconstruction.

Variables (armors : list ArmorItem) (total_cost_arg : Z).
Hypothesis costs_positive : Forall (fun a => 0 < cost a) armors.
Hypothesis budget_nonneg : 0 <= total_cost_arg.

Let n := length armors.
Let W := Z.to_nat total_cost_arg.
Let table := build_table armors total_cost_arg.

Lemma choose_step_invariant (k : nat) (st : Z * list ArmorItem) :
  (1 <= k <= n)%nat ->
  walk_invariant armors total_cost_arg k st ->
  walk_invariant armors total_cost_arg (k - 1) (choose_step armors table k st).
Proof.
  intros Hk. destruct st as [horz choice].
  unfold walk_invariant. fold n W.
  intros (Hh & Hh1 & Hcost & Hdef & Hin).
  destruct (build_table_spec armors total_cost_arg costs_positive budget_nonneg)
    as [_ Hrd].
  fold n W table in Hrd.
  unfold choose_step.
  rewrite !Hrd by lia.
  destruct k as [|k]; [lia|].
  replace (S k - 1)%nat with k by lia.
  pose proof (cell_nonneg armors k (Z.to_nat horz)) as Hge0.
  pose proof (cell_row_le armors k (Z.to_nat horz)) as Hrow.
  destruct (Qeq_bool (cell armors (S k) (Z.to_nat horz)) 0) eqn:Hzero;
    cbn [negb].
  { apply Qeq_bool_iff in Hzero.
    repeat split; trivial; try lia. lra. }
  destruct (Qeq_bool (cell armors (S k) (Z.to_nat horz))
              (cell armors k (Z.to_nat horz))) eqn:Hsame; cbn [negb].
  { apply Qeq_bool_iff in Hsame.
    repeat split; trivial; try lia. lra. }
  apply Qeq_bool_false in Hsame.
  destruct (cell_succ_cases armors k (Z.to_nat horz))
    as [Heq|(a & Ha & Hfit & Hlt & Hval)].
  { exfalso. apply Hsame. now rewrite Heq. }
  rewrite Ha. rewrite Z2Nat.id in Hfit by lia.
  rewrite Z2Nat.id in Hval by lia.
  pose proof (Forall_lookup_1 _ _ _ _ costs_positive Ha) as Hpos.
  simpl in Hpos.
  repeat split; try lia.
  - rewrite total_cost_app. lia.
  - rewrite total_defense_app. rewrite Hval in Hdef. lra.
  - apply Forall_app. split; [assumption|].
    constructor; [|constructor]. eapply list_elem_of_lookup_2. exact Ha.
Qed.

Lemma dynamic_walk :
  walk_invariant armors total_cost_arg 0
    (for_down n (choose_step armors table) (total_cost_arg, [])).
Proof.
  apply (for_down_ind (walk_invariant armors total_cost_arg)).
  - unfold walk_invariant. repeat split; try lia.
    + unfold total_cost. simpl. lia.
    + unfold total_defense. cbn [fold_left]. subst n. lra.
    + constructor.
  - intros k st Hk. now apply choose_step_invariant.
Qed.

End Reconstruction.

Lemma total_cost_from (l : list ArmorItem) (c : Z) :
  fold_left (fun c a => c + cost a) l c = c + total_cost l.
Proof.
  unfold total_cost. revert c. induction l as [|a l IH]; intros c; simpl; [lia|].
  rewrite (IH (c + cost a)), (IH (0 + cost a)). lia.
Qed.

Lemma total_cost_cons (a : ArmorItem) (l : list ArmorItem) :
  total_cost (a :: l) = cost a + total_cost l.
Proof. unfold total_cost at 1. simpl. apply total_cost_from. Qed.

Lemma total_cost_nonneg (l : list ArmorItem) :
  Forall (fun a => 0 < cost a) l -> 0 <= total_cost l.
Proof.
  induction 1 as [|a l Ha _ IH]; [reflexivity|]. rewrite total_cost_cons. lia.
Qed.

Lemma total_cost_positive (l : list ArmorItem) :
  Forall (fun a => 0 < cost a) l -> l <> [] -> 0 < total_cost l.
Proof.
  intros Hall Hne. destruct Hall as [|a l Ha Hall]; [congruence|].
  rewrite total_cost_cons. pose proof (total_cost_nonneg l Hall). lia.
Qed.

Lemma bind_Ok {A B : Type} (a : A) (k : A -> outcome B) : mbind k (Ok a) = k a.
Proof. reflexivity. Qed.

(** ** sum_armor_vector *)

Lemma in_int_iff (z : Z) : in_int z = true <-> INT_MIN <= z <= INT_MAX.
Proof. unfold in_int. rewrite andb_true_iff, !Z.leb_le. tauto. Qed.

Lemma sum_loop_stuck (l : list ArmorItem) (acc : outcome (Z * Q)) :
  (forall p, acc <> Ok p) ->
  forall p,
    fold_left
      (fun acc armor =>
         '(total_cost, total_defense) ← acc;
         total_cost' ← int_add total_cost (cost armor);
         Ok (total_cost', (total_defense + defense armor)%Q))
      l acc <> Ok p.
Proof.
  revert acc. induction l as [|a l IH]; intros acc Hacc p; simpl; [apply Hacc|].
  apply IH. intros q. destruct acc as [[c d]| |]; try discriminate.
  now destruct (Hacc (c, d)).
Qed.

Lemma sum_loop_inv (l : list ArmorItem) (c0 : Z) (d0 : Q) (c : Z) (d : Q) :
  fold_left
    (fun acc armor =>
       '(total_cost, total_defense) ← acc;
       total_cost' ← int_add total_cost (cost armor);
       Ok (total_cost', (total_defense + defense armor)%Q))
    l (Ok (c0, d0)) = Ok (c, d) ->
  c = fold_left (fun c a => c + cost a) l c0
  /\ d = fold_left (fun d a => (d + defense a)%Q) l d0.
Proof.
  revert c0 d0. induction l as [|a l IH]; intros c0 d0; simpl.
  - intros [= -> ->]. now split.
  - unfold int_add. destruct (in_int (c0 + cost a)); simpl.
    + apply IH.
    + intros H. exfalso. revert H. apply sum_loop_stuck. discriminate.
Qed.

(** A sum that comes back is the sum. *)
Lemma sum_armor_vector_inv (l : list ArmorItem) (c : Z) (d : Q) :
  sum_armor_vector l = Ok (c, d) -> c = total_cost l /\ d = total_defense l.
Proof. apply sum_loop_inv. Qed.

Lemma sum_loop_total (l : list ArmorItem) (c0 : Z) (d0 : Q) :
  Forall (fun a => 0 < cost a) l ->
  0 <= c0 -> c0 + total_cost l <= INT_MAX ->
  fold_left
    (fun acc armor =>
       '(total_cost, total_defense) ← acc;
       total_cost' ← int_add total_cost (cost armor);
       Ok (total_cost', (total_defense + defense armor)%Q))
    l (Ok (c0, d0))
  = Ok (fold_left (fun c a => c + cost a) l c0,
        fold_left (fun d a => (d + defense a)%Q) l d0).
Proof.
  intros Hall. revert c0 d0.
  induction Hall as [|a l Ha Hall IH]; intros c0 d0 Hc0 Hsum; simpl; [reflexivity|].
  rewrite total_cost_cons in Hsum. pose proof (total_cost_nonneg l Hall).
  unfold int_add.
  replace (in_int (c0 + cost a)) with true
    by (symmetry; apply in_int_iff; unfold INT_MIN, INT_MAX in *; lia).
  simpl. apply IH; lia.
Qed.

(** Within [int], the sum comes back. *)
Lemma sum_armor_vector_total (l : list ArmorItem) :
  Forall (fun a => 0 < cost a) l -> total_cost l <= INT_MAX ->
  sum_armor_vector l = Ok (total_cost l, total_defense l).
Proof.
  intros Hall Hsum. apply sum_loop_total; trivial; lia.
Qed.

(** ** The loop over the masks *)

Lemma for_masks_succ (N : nat) (body : Z -> list ArmorItem * Q -> outcome (list ArmorItem * Q))
    (st : list ArmorItem * Q) :
  for_masks (Z.of_nat (S N)) body st
  = (st' ← for_masks (Z.of_nat N) body st; body (Z.of_nat N) st').
Proof.
  unfold for_masks. rewrite !Nat2Z.id, seq_S, fold_left_app. reflexivity.
Qed.

Lemma for_masks_ind (P : nat -> list ArmorItem * Q -> Prop) (N : nat)
    (body : Z -> list ArmorItem * Q -> outcome (list ArmorItem * Q))
    (st r : list ArmorItem * Q) :
  P O st ->
  (forall k s s', (k < N)%nat -> P k s -> body (Z.of_nat k) s = Ok s' -> P (S k) s') ->
  for_masks (Z.of_nat N) body st = Ok r ->
  P N r.
Proof.
  intros H0. revert r. induction N as [|N IH]; intros r Hstep.
  - unfold for_masks. simpl. now intros [= <-].
  - rewrite for_masks_succ.
    destruct (for_masks (Z.of_nat N) body st) as [s| |] eqn:Hrun;
      try discriminate.
    simpl. intros Hbody. apply (Hstep N s r); [lia| |exact Hbody].
    apply IH; [|reflexivity]. intros k s1 s2 Hk. apply Hstep. lia.
Qed.

Lemma for_masks_total (N : nat)
    (body : Z -> list ArmorItem * Q -> outcome (list ArmorItem * Q))
    (st : list ArmorItem * Q) :
  (forall k s, (k < N)%nat -> exists s', body (Z.of_nat k) s = Ok s') ->
  exists r, for_masks (Z.of_nat N) body st = Ok r.
Proof.
  induction N as [|N IH]; intros Hstep.
  - exists st. reflexivity.
  - rewrite for_masks_succ.
    destruct IH as [s Hs]; [intros k s Hk; apply Hstep; lia|].
    rewrite Hs. simpl. apply Hstep. lia.
Qed.

(** ** The subsets of the exhaustive solver *)

Lemma subset_of_0 (armors : list ArmorItem) : subset_of armors 0 = [].
Proof.
  unfold subset_of, candidate_of.
  apply (for_up_ind (fun _ c => c = [])); [reflexivity|].
  intros k c _ ->. reflexivity.
Qed.

Lemma subset_of_within (armors : list ArmorItem) (m : Z) :
  Forall (fun a => 0 < cost a) armors ->
  Forall (fun a => 0 < cost a) (subset_of armors m)
  /\ total_cost (subset_of armors m) <= total_cost armors.
Proof.
  intros Hpos. unfold subset_of, candidate_of.
  set (Inv := fun (j : nat) (c : list ArmorItem) =>
                Forall (fun a => 0 < cost a) c
                /\ total_cost c <= total_cost (take j armors)).
  assert (H : Inv (0 + length armors)%nat
                (for_up 0 (length armors)
                   (fun j candidate =>
                      if negb (Z.land m (Z.shiftl 1 (Z.of_nat j)) =? 0)
                      then match armors !! j with
                           | Some a => candidate ++ [a]
                           | None => candidate
                           end
                      else candidate) [])).
  { apply (for_up_ind Inv).
    - split; [constructor|]. rewrite take_0. reflexivity.
    - intros j c Hj [Hc Hsum]. unfold Inv.
      destruct (lookup_lt_is_Some_2 armors j) as [a Ha]; [lia|].
      pose proof (Forall_lookup_1 _ _ _ _ Hpos Ha) as Hcost. simpl in Hcost.
      rewrite Ha, (take_S_r _ _ _ Ha), total_cost_app.
      destruct (negb (Z.land m (Z.shiftl 1 (Z.of_nat j)) =? 0)).
      + split; [|rewrite total_cost_app; lia].
        apply Forall_app. split; [assumption|]. now repeat constructor.
      + split; [assumption|lia]. }
  destruct H as [Hc Hsum]. split; [exact Hc|].
  simpl in Hsum. now rewrite firstn_all in Hsum.
Qed.

(** ** The exhaustive solver *)

Section Exhaustive.

Variables (armors : list ArmorItem) (budget : Q).

Let n := length armors.

(** The state of the outer loop once the masks below [k] are done. *)
Let held (k : nat) (st : list ArmorItem * Q) : Prop :=
  exists m, st = (subset_of armors m, total_defense (subset_of armors m))
            /\ best_upto armors budget (Z.of_nat k) m.

Lemma held_start : held 0 ([], 0%Q).
Proof.
  exists 0. rewrite subset_of_0. split; [reflexivity|].
  unfold best_upto. rewrite subset_of_0. split; [now left|].
  split; [apply Qle_refl|]. intros m' Hm'. lia.
Qed.

Lemma exhaustive_step_held (k : nat) (s s' : list ArmorItem * Q) :
  held k s ->
  exhaustive_step armors n budget (Z.of_nat k) s = Ok s' ->
  held (S k) s'.
Proof.
  intros (m & -> & Hm & Hpos & Hbest). unfold exhaustive_step.
  change (candidate_of armors n (Z.of_nat k))
    with (subset_of armors (Z.of_nat k)).
  destruct (sum_armor_vector (subset_of armors (Z.of_nat k)))
    as [[c d]| |] eqn:Hsum; try discriminate.
  apply sum_armor_vector_inv in Hsum as [-> ->]. rewrite bind_Ok.
  destruct (Qlt_bool _ _ && Qle_bool _ _) eqn:Hrepl; intros [= <-].
  - apply andb_true_iff in Hrepl as [Hlt Hfit].
    apply Qlt_bool_iff in Hlt. apply Qle_bool_iff in Hfit.
    exists (Z.of_nat k). split; [reflexivity|]. split; [|split].
    + destruct k as [|k]; [now left|]. right. split; [lia|exact Hfit].
    + lra.
    + intros m' Hm' Hf.
      destruct (Z.eq_dec m' (Z.of_nat k)) as [->|Hne].
      * split; [apply Qle_refl|]. intros _. lia.
      * destruct (Hbest m') as [Hle _]; [lia|assumption|].
        split; [lra|]. intros Heq. lra.
  - exists m. split; [reflexivity|]. split; [|split].
    + destruct Hm as [->|[Hr Hf]]; [now left|]. right. split; [lia|exact Hf].
    + exact Hpos.
    + intros m' Hm' Hf.
      destruct (Z.eq_dec m' (Z.of_nat k)) as [->|Hne].
      * apply andb_false_iff in Hrepl as [Hlt|Hfit].
        -- apply Qlt_bool_false in Hlt. split; [exact Hlt|].
           intros _. destruct Hm as [->|[Hr _]]; lia.
        -- apply Qle_bool_false in Hfit. unfold feasible in Hf. lra.
      * apply Hbest; [lia|assumption].
Qed.

(** [pow(2, n)] fits an [int] up to 30 items. *)
Lemma pow2_in_int : in_int (2 ^ Z.of_nat n) = true <-> (n <= 30)%nat.
Proof.
  rewrite in_int_iff. unfold INT_MIN, INT_MAX. split.
  - intros [_ Hle]. destruct (Nat.le_gt_cases n 30) as [|Hgt]; [assumption|].
    assert (2 ^ 31 <= 2 ^ Z.of_nat n) by (apply Z.pow_le_mono_r; lia). lia.
  - intros Hle.
    assert (0 < 2 ^ Z.of_nat n) by (apply Z.pow_pos_nonneg; lia).
    assert (2 ^ Z.of_nat n <= 2 ^ 30) by (apply Z.pow_le_mono_r; lia). lia.
Qed.

(** What the solver returns, when it returns. *)
Lemma exhaustive_returns (r : list ArmorItem) :
  exhaustive_max_defense armors budget = Ok r ->
  (n <= 30)%nat
  /\ exists m, r = subset_of armors m
               /\ best_upto armors budget (2 ^ Z.of_nat n) m.
Proof.
  unfold exhaustive_max_defense. fold n.
  destruct (negb (n <? 64)%nat); [discriminate|].
  unfold double_to_int.
  destruct (in_int (2 ^ Z.of_nat n)) eqn:Hint; [|discriminate].
  apply pow2_in_int in Hint. simpl.
  destruct (for_masks _ _ _) as [st| |] eqn:Hrun; try discriminate.
  simpl. intros [= <-]. split; [exact Hint|].
  assert (Hpow : 2 ^ Z.of_nat n = Z.of_nat (Z.to_nat (2 ^ Z.of_nat n))).
  { rewrite Z2Nat.id; [reflexivity|]. apply Z.pow_nonneg. lia. }
  rewrite Hpow in Hrun.
  apply (for_masks_ind held) in Hrun.
  - destruct Hrun as (m & -> & Hm). exists m. split; [reflexivity|].
    now rewrite Hpow.
  - apply held_start.
  - intros k s s' _. apply exhaustive_step_held.
Qed.

(** The solver returns for up to 30 items whose costs add up within [int]. *)
Lemma exhaustive_total :
  (n <= 30)%nat ->
  Forall (fun a => 0 < cost a) armors ->
  total_cost armors <= INT_MAX ->
  exists r, exhaustive_max_defense armors budget = Ok r.
Proof.
  intros Hn Hpos Hsum. unfold exhaustive_max_defense. fold n.
  replace (n <? 64)%nat with true by (symmetry; apply Nat.ltb_lt; lia).
  unfold double_to_int.
  replace (in_int (2 ^ Z.of_nat n)) with true
    by (symmetry; now apply pow2_in_int).
  simpl.
  assert (Hpow : 2 ^ Z.of_nat n = Z.of_nat (Z.to_nat (2 ^ Z.of_nat n))).
  { rewrite Z2Nat.id; [reflexivity|]. apply Z.pow_nonneg. lia. }
  rewrite Hpow.
  destruct (for_masks_total (Z.to_nat (2 ^ Z.of_nat n))
              (exhaustive_step armors n budget) ([], 0%Q)) as [st Hst].
  - intros k [bestset bestdefense] _. unfold exhaustive_step.
    change (candidate_of armors n (Z.of_nat k))
    with (subset_of armors (Z.of_nat k)).
    destruct (subset_of_within armors (Z.of_nat k) Hpos) as [Hc Hle].
    rewrite sum_armor_vector_total by (trivial; lia). rewrite bind_Ok.
    destruct (Qlt_bool _ _ && Qle_bool _ _); eauto.
  - rewrite Hst. simpl. eauto.
Qed.

End Exhaustive.

(** ** What the two solvers return *)

Lemma dynamic_max_defense_walk (armors : list ArmorItem) (total_cost_arg : Z) :
  Forall (fun a => 0 < cost a) armors ->
  0 <= total_cost_arg ->
  exists horz,
    0 <= horz <= total_cost_arg
    /\ (0 < total_cost_arg -> 0 < horz)
    /\ total_cost (dynamic_max_defense armors total_cost_arg) = total_cost_arg - horz
    /\ (total_defense (dynamic_max_defense armors total_cost_arg)
        == cell armors (length armors) (Z.to_nat total_cost_arg))%Q
    /\ Forall (fun a => a ∈ armors) (dynamic_max_defense armors total_cost_arg).
Proof.
  intros Hpos Hbudget. unfold dynamic_max_defense.
  pose proof (dynamic_walk armors total_cost_arg Hpos Hbudget) as Hwalk.
  cbv zeta in Hwalk |- *.
  destruct (for_down _ _ _) as [horz choice]. exists horz.
  destruct Hwalk as (Hh & Hh1 & Hcost & Hdef & Hin). simpl snd.
  repeat split; trivial; try lia.
  simpl cell in Hdef. lra.
Qed.

(** The dynamic solver leaves at least one piece of gold of a positive
    budget unspent. *)
Lemma dynamic_max_defense_below_budget (armors : list ArmorItem) (total_cost_arg : Z) :
  Forall (fun a => 0 < cost a) armors ->
  0 < total_cost_arg ->
  total_cost (dynamic_max_defense armors total_cost_arg) < total_cost_arg.
Proof.
  intros Hpos Hbudget.
  destruct (dynamic_max_defense_walk armors total_cost_arg Hpos ltac:(lia))
    as (horz & Hh & Hh1 & Hcost & _).
  specialize (Hh1 Hbudget). lia.
Qed.

Lemma positive_costs_elem (armors l : list ArmorItem) :
  Forall (fun a => 0 < cost a) armors ->
  Forall (fun a => a ∈ armors) l ->
  Forall (fun a => 0 < cost a) l.
Proof.
  intros Hpos Hin. rewrite Forall_forall in Hpos.
  eapply List.Forall_impl; [|exact Hin]. intros a Ha. now apply Hpos.
Qed.

Lemma dynamic_max_defense_budget_0 (armors : list ArmorItem) :
  Forall (fun a => 0 < cost a) armors ->
  dynamic_max_defense armors 0 = [].
Proof.
  intros Hpos.
  destruct (dynamic_max_defense_walk armors 0 Hpos ltac:(lia))
    as (horz & Hh & _ & Hcost & _ & Hin).
  destruct (dynamic_max_defense armors 0) as [|a l] eqn:Hsol; [reflexivity|].
  pose proof (total_cost_positive (a :: l)
                (positive_costs_elem armors _ Hpos Hin) ltac:(discriminate)).
  lia.
Qed.

Lemma exhaustive_max_defense_budget_0 (armors : list ArmorItem) (r : list ArmorItem) :
  Forall (fun a => 0 < cost a) armors ->
  exhaustive_max_defense armors 0 = Ok r -> r = [].
Proof.
  intros Hpos Hr.
  destruct (exhaustive_returns armors 0 r Hr) as (_ & m & -> & Hm & _).
  destruct Hm as [->|[_ Hf]]; [apply subset_of_0|].
  destruct (subset_of_within armors m Hpos) as [Hc _].
  destruct (subset_of armors m) as [|a l] eqn:Hsub; [reflexivity|].
  pose proof (total_cost_positive (a :: l) Hc ltac:(discriminate)) as Hlt.
  unfold feasible in Hf. rewrite Hsub in Hf.
  change 0%Q with (inject_Z 0) in Hf. rewrite <- Zle_Qle in Hf. lia.
Qed.

Lemma exhaustive_max_defense_within_budget (armors : list ArmorItem) (budget : Z)
    (r : list ArmorItem) :
  0 <= budget ->
  exhaustive_max_defense armors (inject_Z budget) = Ok r ->
  total_cost r <= budget.
Proof.
  intros Hbudget Hr.
  destruct (exhaustive_returns armors _ r Hr) as (_ & m & -> & Hm & _).
  destruct Hm as [->|[_ Hf]].
  - rewrite subset_of_0. exact Hbudget.
  - unfold feasible in Hf. now rewrite <- Zle_Qle in Hf.
Qed.

(** The test of the inner loop reads bit [j] of the mask. *)
Lemma land_shiftl_1 (m : Z) (j : nat) :
  negb (Z.land m (Z.shiftl 1 (Z.of_nat j)) =? 0) = Z.testbit m (Z.of_nat j).
Proof.
  rewrite Z.shiftl_1_l.
  destruct (Z.testbit m (Z.of_nat j)) eqn:Hbit.
  - apply negb_true_iff, Z.eqb_neq. intros H0.
    assert (Hj : Z.testbit (Z.land m (2 ^ Z.of_nat j)) (Z.of_nat j) = true).
    { rewrite Z.land_spec, Hbit, Z.pow2_bits_true by lia. reflexivity. }
    rewrite H0, Z.bits_0 in Hj. discriminate.
  - apply negb_false_iff, Z.eqb_eq, Z.bits_inj'. intros k Hk.
    rewrite Z.land_spec, Z.bits_0, Z.pow2_bits_eqb by lia.
    destruct (Z.eqb_spec (Z.of_nat j) k) as [<-|Hne].
    + now rewrite Hbit.
    + apply andb_false_r.
Qed.

Lemma select_app (m : Z) (j : nat) (l : list ArmorItem) (a : ArmorItem) :
  select m j (l ++ [a])
  = select m j l ++ (if Z.testbit m (Z.of_nat (j + length l)) then [a] else []).
Proof.
  revert j. induction l as [|b l IH]; intros j; simpl.
  - now rewrite Nat.add_0_r.
  - rewrite IH. replace (S j + length l)%nat with (j + S (length l))%nat by lia.
    now destruct (Z.testbit m (Z.of_nat j)).
Qed.

(** The subset of a mask holds item [j] if and only if bit [j] is set, in
    the order of the catalog. *)
Lemma subset_of_select (armors : list ArmorItem) (m : Z) :
  subset_of armors m = select m 0 armors.
Proof.
  unfold subset_of, candidate_of.
  set (Inv := fun (j : nat) (c : list ArmorItem) => c = select m 0 (take j armors)).
  assert (H : Inv (0 + length armors)%nat
                (for_up 0 (length armors)
                   (fun j candidate =>
                      if negb (Z.land m (Z.shiftl 1 (Z.of_nat j)) =? 0)
                      then match armors !! j with
                           | Some a => candidate ++ [a]
                           | None => candidate
                           end
                      else candidate) [])).
  { apply (for_up_ind Inv).
    - unfold Inv. now rewrite take_0.
    - intros j c Hj Hc. unfold Inv in *. subst c.
      destruct (lookup_lt_is_Some_2 armors j) as [a Ha]; [lia|].
      rewrite Ha, (take_S_r _ _ _ Ha), select_app, land_shiftl_1.
      rewrite length_take, Nat.min_l by lia. simpl.
      destruct (Z.testbit m (Z.of_nat j)); [reflexivity|].
      now rewrite app_nil_r. }
  unfold Inv in H. simpl in H. now rewrite firstn_all in H.
Qed.

(** Up to 30 items whose costs add up within [int]: the exhaustive solver
    returns the subset of the lowest mask among the feasible subsets of
    greatest defense, mask 0 when no feasible subset beats defense 0. *)
Lemma exhaustive_max_defense_lowest_mask (armors : list ArmorItem) (budget : Q) :
  (length armors <= 30)%nat ->
  Forall (fun a => 0 < cost a) armors ->
  total_cost armors <= INT_MAX ->
  exists m,
    exhaustive_max_defense armors budget = Ok (select m 0 armors)
    /\ best_upto armors budget (2 ^ Z.of_nat (length armors)) m.
Proof.
  intros Hn Hpos Hsum.
  destruct (exhaustive_total armors budget Hn Hpos Hsum) as [r Hr].
  destruct (exhaustive_returns armors budget r Hr) as (_ & m & -> & Hm).
  exists m. now rewrite <- subset_of_select.
Qed.

(** ** What the dynamic solver optimises *)

Lemma Forall_sublist_of {A : Type} (P : A -> Prop) (l k : list A) :
  l `sublist_of` k -> Forall P k -> Forall P l.
Proof.
  induction 1 as [|x l k _ IH|x l k _ IH]; intros Hk.
  - constructor.
  - inversion Hk; subst. constructor; auto.
  - inversion Hk; subst. auto.
Qed.

(** A cell bounds the defense of every selection among the first [i] items
    that costs strictly less than the column. *)
Lemma cell_upper_bound (armors : list ArmorItem) (i j : nat) (l : list ArmorItem) :
  Forall (fun a => 0 < cost a) armors ->
  (i <= length armors)%nat ->
  l `sublist_of` take i armors ->
  total_cost l < Z.of_nat j \/ l = [] ->
  (total_defense l <= cell armors i j)%Q.
Proof.
  intros Hpos. revert j l. induction i as [|i IH]; intros j l Hi Hsub Hcost.
  - rewrite take_0 in Hsub. apply sublist_nil_r in Hsub. subst l.
    apply Qle_refl.
  - destruct (lookup_lt_is_Some_2 armors i) as [a Ha]; [lia|].
    rewrite (take_S_r _ _ _ Ha) in Hsub.
    apply sublist_app_r in Hsub as (l1 & l2 & -> & Hl1 & Hl2).
    apply sublist_cons_r in Hl2 as [Hl2|(l' & -> & Hl')].
    + apply sublist_nil_r in Hl2. subst l2. rewrite app_nil_r in *.
      eapply Qle_trans; [|apply cell_row_le]. apply IH; trivial. lia.
    + apply sublist_nil_r in Hl'. subst l'.
      destruct Hcost as [Hcost|Hnil]; [|now destruct l1].
      rewrite total_cost_app in Hcost. rewrite total_defense_app.
      assert (0 <= total_cost l1).
      { apply total_cost_nonneg. eapply Forall_sublist_of; [exact Hl1|].
        now apply Forall_take. }
      simpl cell. rewrite Ha.
      replace (Z.of_nat j - cost a >? 0) with true
        by (symmetry; apply Z.gtb_lt; lia).
      pose proof (IH (Z.to_nat (Z.of_nat j - cost a)) l1 ltac:(lia) Hl1
                    ltac:(left; lia)) as Hle.
      destruct (max_cases (cell armors i j)
                  (cell armors i (Z.to_nat (Z.of_nat j - cost a)) + defense a))
        as [[-> ?]|[-> ?]]; lra.
Qed.

(** What the dynamic solver returns is at least as good as every selection
    of items that costs strictly less than the budget. *)
Lemma dynamic_max_defense_best_below (armors : list ArmorItem) (budget : Z)
    (l : list ArmorItem) :
  Forall (fun a => 0 < cost a) armors ->
  0 <= budget ->
  l `sublist_of` armors ->
  total_cost l < budget ->
  (total_defense l <= total_defense (dynamic_max_defense armors budget))%Q.
Proof.
  intros Hpos Hbudget Hsub Hcost.
  destruct (dynamic_max_defense_walk armors budget Hpos Hbudget)
    as (_ & _ & _ & _ & Hdef & _).
  rewrite Hdef. apply cell_upper_bound; trivial.
  - now rewrite firstn_all.
  - left. lia.
Qed.

(** ** The solvers in double arithmetic *)

(** The definitions that add defenses exactly are those of [Rounded] at the
    exact sum. *)
Lemma exact_addition :
  sum_armor_vector = Rounded.sum_armor_vector Qplus
  /\ build_table = Rounded.build_table Qplus
  /\ dynamic_max_defense = Rounded.dynamic_max_defense Qplus
  /\ exhaustive_max_defense = Rounded.exhaustive_max_defense Qplus
  /\ total_defense = Rounded.total_defense Qplus.
Proof. repeat split; reflexivity. Qed.

Section RoundedSums.

Variable fadd : Q -> Q -> Q.

Lemma rounded_sum_loop_stuck (l : list ArmorItem) (acc : outcome (Z * Q)) :
  (forall p, acc <> Ok p) ->
  forall p,
    fold_left
      (fun acc armor =>
         '(total_cost, total_defense) ← acc;
         total_cost' ← int_add total_cost (cost armor);
         Ok (total_cost', fadd total_defense (defense armor)))
      l acc <> Ok p.
Proof.
  revert acc. induction l as [|a l IH]; intros acc Hacc p; simpl; [apply Hacc|].
  apply IH. intros q. destruct acc as [[c d]| |]; try discriminate.
  now destruct (Hacc (c, d)).
Qed.

Lemma rounded_sum_loop_inv (l : list ArmorItem) (c0 : Z) (d0 : Q) (c : Z) (d : Q) :
  fold_left
    (fun acc armor =>
       '(total_cost, total_defense) ← acc;
       total_cost' ← int_add total_cost (cost armor);
       Ok (total_cost', fadd total_defense (defense armor)))
    l (Ok (c0, d0)) = Ok (c, d) ->
  c = fold_left (fun c a => c + cost a) l c0
  /\ d = Rounded.defense_from fadd d0 l.
Proof.
  revert c0 d0. induction l as [|a l IH]; intros c0 d0; simpl.
  - intros [= -> ->]. now split.
  - unfold int_add. destruct (in_int (c0 + cost a)); simpl.
    + apply IH.
    + intros H. exfalso. revert H. apply rounded_sum_loop_stuck. discriminate.
Qed.

(** A sum that comes back holds the cost and the defenses added in order. *)
Lemma rounded_sum_armor_vector_inv (l : list ArmorItem) (c : Z) (d : Q) :
  Rounded.sum_armor_vector fadd l = Ok (c, d) ->
  c = total_cost l /\ d = Rounded.total_defense fadd l.
Proof. apply rounded_sum_loop_inv. Qed.

Lemma rounded_sum_loop_total (l : list ArmorItem) (c0 : Z) (d0 : Q) :
  Forall (fun a => 0 < cost a) l ->
  0 <= c0 -> c0 + total_cost l <= INT_MAX ->
  fold_left
    (fun acc armor =>
       '(total_cost, total_defense) ← acc;
       total_cost' ← int_add total_cost (cost armor);
       Ok (total_cost', fadd total_defense (defense armor)))
    l (Ok (c0, d0))
  = Ok (fold_left (fun c a => c + cost a) l c0, Rounded.defense_from fadd d0 l).
Proof.
  intros Hall. revert c0 d0.
  induction Hall as [|a l Ha Hall IH]; intros c0 d0 Hc0 Hsum; simpl; [reflexivity|].
  rewrite total_cost_cons in Hsum. pose proof (total_cost_nonneg l Hall).
  unfold int_add.
  replace (in_int (c0 + cost a)) with true
    by (symmetry; apply in_int_iff; unfold INT_MIN, INT_MAX in *; lia).
  simpl. apply IH; lia.
Qed.

Lemma rounded_sum_armor_vector_total (l : list ArmorItem) :
  Forall (fun a => 0 < cost a) l -> total_cost l <= INT_MAX ->
  Rounded.sum_armor_vector fadd l = Ok (total_cost l, Rounded.total_defense fadd l).
Proof.
  intros Hall Hsum. apply rounded_sum_loop_total; trivial; lia.
Qed.

Lemma rounded_sum_loop_undefined (l : list ArmorItem) :
  fold_left
    (fun acc armor =>
       '(total_cost, total_defense) ← acc;
       total_cost' ← int_add total_cost (cost armor);
       Ok (total_cost', fadd total_defense (defense armor)))
    l UndefinedBehaviour = UndefinedBehaviour.
Proof. induction l as [|a l IH]; simpl; [reflexivity|exact IH]. Qed.

Lemma rounded_sum_loop_overflow (l : list ArmorItem) (c0 : Z) (d0 : Q) :
  Forall (fun a => 0 < cost a) l ->
  0 <= c0 <= INT_MAX -> INT_MAX < c0 + total_cost l ->
  fold_left
    (fun acc armor =>
       '(total_cost, total_defense) ← acc;
       total_cost' ← int_add total_cost (cost armor);
       Ok (total_cost', fadd total_defense (defense armor)))
    l (Ok (c0, d0)) = UndefinedBehaviour.
Proof.
  intros Hall. revert c0 d0.
  induction Hall as [|a l Ha Hall IH]; intros c0 d0 Hc0 Hsum.
  - unfold total_cost in Hsum. simpl in Hsum. lia.
  - rewrite total_cost_cons in Hsum. simpl. unfold int_add.
    destruct (in_int (c0 + cost a)) eqn:Hin; simpl.
    + apply in_int_iff in Hin. apply IH; lia.
    + apply rounded_sum_loop_undefined.
Qed.

Lemma rounded_sum_armor_vector_overflow (l : list ArmorItem) :
  Forall (fun a => 0 < cost a) l ->
  INT_MAX < total_cost l ->
  Rounded.sum_armor_vector fadd l = UndefinedBehaviour.
Proof.
  intros Hall Hsum. apply rounded_sum_loop_overflow; trivial; unfold INT_MAX in *; lia.
Qed.

End RoundedSums.

(** ** The table in double arithmetic *)

Section RoundedTable.

Variable fadd : Q -> Q -> Q.
Variables (armors : list ArmorItem) (total_cost : Z).
Hypothesis costs_positive : Forall (fun a => 0 < cost a) armors.
Hypothesis budget_nonneg : 0 <= total_cost.

Let n := length armors.
Let W := Z.to_nat total_cost.

Lemma rounded_cell_column_0 (i : nat) : Rounded.cell fadd armors i 0 = 0%Q.
Proof.
  induction i as [|i IH]; simpl; [reflexivity|].
  destruct (armors !! i) as [a|] eqn:Ha; [|exact IH].
  assert (0 < cost a).
  { exact (Forall_lookup_1 _ _ _ _ costs_positive Ha). }
  replace (Z.of_nat 0 - cost a >? 0) with false
    by (symmetry; rewrite Z.gtb_ltb; apply Z.ltb_ge; lia).
  exact IH.
Qed.

Lemma rounded_enter_cell_spec (i j : nat) (table : list (list Q)) :
  (1 <= i <= n)%nat -> (1 <= j <= W)%nat ->
  shaped n W table ->
  (forall i' j', (i' < i)%nat -> (j' <= W)%nat ->
     rd table i' j' = Rounded.cell fadd armors i' j') ->
  let table' := Rounded.enter_cell fadd armors i j table in
  shaped n W table'
  /\ rd table' i j = Rounded.cell fadd armors i j
  /\ (forall i' j', i' <> i \/ j' <> j -> rd table' i' j' = rd table i' j').
Proof.
  intros Hi Hj Hs Hprev. unfold Rounded.enter_cell.
  destruct i as [|i]; [lia|].
  replace (S i - 1)%nat with i by lia. simpl Rounded.cell.
  destruct (lookup_lt_is_Some_2 armors i) as [a Ha]; [fold n; lia|].
  rewrite Ha.
  assert (0 < cost a).
  { exact (Forall_lookup_1 _ _ _ _ costs_positive Ha). }
  destruct (Z.of_nat j - cost a >? 0) eqn:Hfit; simpl.
  - apply Z.gtb_lt in Hfit.
    split; [apply shaped_wr, Hs|]. split.
    + rewrite (rd_wr_same n W) by (trivial; lia).
      rewrite !Hprev by lia. reflexivity.
    + intros i' j' Hne. now apply rd_wr_other.
  - split; [apply shaped_wr, Hs|]. split.
    + rewrite (rd_wr_same n W) by (trivial; lia).
      rewrite Hprev by lia. reflexivity.
    + intros i' j' Hne. now apply rd_wr_other.
Qed.

(** The table the reconstruction reads, whatever the addition: every cell
    holds [Rounded.cell]. *)
Lemma rounded_build_table_spec :
  shaped n W (Rounded.build_table fadd armors total_cost)
  /\ forall i j, (i <= n)%nat -> (j <= W)%nat ->
       rd (Rounded.build_table fadd armors total_cost) i j
       = Rounded.cell fadd armors i j.
Proof.
  unfold Rounded.build_table. fold n.
  destruct (set_initials_spec armors total_cost budget_nonneg)
    as (Hs0 & Hrow0 & Hcol0).
  fold n W in Hs0, Hrow0, Hcol0.
  set (t0 := set_initials n total_cost (new_table n total_cost)) in *.
  set (Inv := fun (k : nat) (table : list (list Q)) =>
                shaped n W table
                /\ (forall i, rd table i 0 = 0%Q)
                /\ (forall i j, (i < k)%nat -> (j <= W)%nat ->
                      rd table i j = Rounded.cell fadd armors i j)).
  assert (HInv : Inv (1 + n)%nat (Rounded.enter_values fadd armors n total_cost t0)).
  { unfold Rounded.enter_values. apply (for_up_ind Inv).
    - split; [exact Hs0|]. split; [exact Hcol0|].
      intros i j Hi Hj. replace i with O by lia. simpl. apply Hrow0.
    - intros k table Hk (Hs & Hcol & Hdone).
      set (Inv2 := fun (m : nat) (table' : list (list Q)) =>
                     Inv k table'
                     /\ (forall j, (1 <= j < m)%nat ->
                           rd table' k j = Rounded.cell fadd armors k j)).
      assert (HInv2 : Inv2 (1 + W)%nat
                (for_up 1 (Z.to_nat total_cost)
                   (fun j table' => Rounded.enter_cell fadd armors k j table') table)).
      { apply (for_up_ind Inv2).
        - split; [split; [exact Hs|split; assumption]|]. intros j Hj. lia.
        - intros m table' Hm ((Hs' & Hcol' & Hdone') & Hrow').
          fold W in Hm.
          destruct (rounded_enter_cell_spec k m table') as (Hs'' & Hnew & Hold);
            trivial; try lia.
          split; [split; [exact Hs''|split]|].
          + intros i. rewrite Hold by lia. apply Hcol'.
          + intros i j Hi Hj. rewrite Hold by lia. now apply Hdone'.
          + intros j Hj. destruct (Nat.eq_dec j m) as [->|Hjm]; [exact Hnew|].
            rewrite Hold by lia. apply Hrow'. lia. }
      destruct HInv2 as ((Hs' & Hcol' & Hdone') & Hrow').
      split; [exact Hs'|]. split; [exact Hcol'|].
      intros i j Hi Hj. destruct (Nat.eq_dec i k) as [->|Hik].
      + destruct j as [|j]; [rewrite rounded_cell_column_0; apply Hcol'|].
        apply Hrow'. lia.
      + apply Hdone'; lia. }
  destruct HInv as (Hs & _ & Hdone). split; [exact Hs|].
  intros i j Hi Hj. apply Hdone; lia.
Qed.

End RoundedTable.

(** ** The values of the table in double arithmetic *)

Section RoundedValues.

Variable fadd : Q -> Q -> Q.

Lemma rounded_cell_succ_cases (armors : list ArmorItem) (i j : nat) :
  Rounded.cell fadd armors (S i) j = Rounded.cell fadd armors i j
  \/ exists a, armors !! i = Some a
               /\ Z.of_nat j - cost a > 0
               /\ (Rounded.cell fadd armors i j < Rounded.cell fadd armors (S i) j)%Q
               /\ Rounded.cell fadd armors (S i) j
                  = fadd (Rounded.cell fadd armors i (Z.to_nat (Z.of_nat j - cost a)))
                      (defense a).
Proof.
  simpl. destruct (armors !! i) as [a|]; [|now left].
  destruct (Z.of_nat j - cost a >? 0) eqn:Hfit; [|now left].
  destruct (max_cases (Rounded.cell fadd armors i j)
              (fadd (Rounded.cell fadd armors i (Z.to_nat (Z.of_nat j - cost a)))
                 (defense a)))
    as [[-> _]|[-> Hlt]]; [now left|].
  right. exists a. apply Z.gtb_lt in Hfit. repeat split; trivial. lia.
Qed.

Lemma rounded_cell_row_le (armors : list ArmorItem) (i j : nat) :
  (Rounded.cell fadd armors i j <= Rounded.cell fadd armors (S i) j)%Q.
Proof.
  destruct (rounded_cell_succ_cases armors i j) as [->|(a & _ & _ & Hlt & _)].
  - apply Qle_refl.
  - now apply Qlt_le_weak.
Qed.

Lemma rounded_cell_nonneg (armors : list ArmorItem) (i j : nat) :
  (0 <= Rounded.cell fadd armors i j)%Q.
Proof.
  induction i as [|i IH]; [apply Qle_refl|].
  eapply Qle_trans; [exact IH | apply rounded_cell_row_le].
Qed.

(** A cell and the cell above hold the same double only when the cell was
    copied from above. *)
Lemma rounded_cell_copied (armors : list ArmorItem) (i j : nat) :
  (Rounded.cell fadd armors (S i) j == Rounded.cell fadd armors i j)%Q ->
  Rounded.cell fadd armors (S i) j = Rounded.cell fadd armors i j.
Proof.
  intros Heq.
  destruct (rounded_cell_succ_cases armors i j) as [H|(a & _ & _ & Hlt & _)];
    [exact H|].
  exfalso. rewrite Heq in Hlt. exact (Qlt_irrefl _ Hlt).
Qed.

(** Where the addition of doubles is monotone in the number added to, the
    cells never decrease along a row. *)
Hypothesis fadd_monotone :
  forall x y v : Q, (x <= y)%Q -> (fadd x v <= fadd y v)%Q.

Lemma rounded_cell_column_le (armors : list ArmorItem) (i j j' : nat) :
  (j <= j')%nat ->
  (Rounded.cell fadd armors i j <= Rounded.cell fadd armors i j')%Q.
Proof.
  revert j j'. induction i as [|i IH]; intros j j' Hj; [apply Qle_refl|].
  simpl. destruct (armors !! i) as [a|]; [|now apply IH].
  destruct (Z.of_nat j - cost a >? 0) eqn:Hfit;
    destruct (Z.of_nat j' - cost a >? 0) eqn:Hfit'.
  - pose proof (IH j j' Hj) as H1.
    pose proof (fadd_monotone _ _ (defense a)
                  (IH (Z.to_nat (Z.of_nat j - cost a))
                      (Z.to_nat (Z.of_nat j' - cost a)) ltac:(lia))) as H2.
    destruct (max_cases (Rounded.cell fadd armors i j)
                (fadd (Rounded.cell fadd armors i (Z.to_nat (Z.of_nat j - cost a)))
                   (defense a)))
      as [[-> ?]|[-> ?]];
      destruct (max_cases (Rounded.cell fadd armors i j')
                  (fadd (Rounded.cell fadd armors i (Z.to_nat (Z.of_nat j' - cost a)))
                     (defense a)))
        as [[-> ?]|[-> ?]]; lra.
  - apply Z.gtb_lt in Hfit. rewrite Z.gtb_ltb in Hfit'. apply Z.ltb_ge in Hfit'. lia.
  - pose proof (IH j j' Hj) as H1.
    destruct (max_cases (Rounded.cell fadd armors i j')
                (fadd (Rounded.cell fadd armors i (Z.to_nat (Z.of_nat j' - cost a)))
                   (defense a)))
      as [[-> ?]|[-> ?]]; lra.
  - now apply IH.
Qed.

End RoundedValues.

(** ** The reconstruction in double arithmetic *)

Section RoundedReconstruction.

Variable fadd : Q -> Q -> Q.
Variables (armors : list ArmorItem) (total_cost_arg : Z).
Hypothesis costs_positive : Forall (fun a => 0 < cost a) armors.
Hypothesis budget_nonneg : 0 <= total_cost_arg.

Let n := length armors.
Let W := Z.to_nat total_cost_arg.
Let table := Rounded.build_table fadd armors total_cost_arg.

(** What holds of [horz] and [choice] when [k] rows are left to visit: the
    defenses chosen so far, added to the cell the walk stands on in the
    order of the catalog, give the last cell of the table. *)
Let walked (k : nat) (st : Z * list ArmorItem) : Prop :=
  0 <= fst st <= total_cost_arg
  /\ total_cost (snd st) = total_cost_arg - fst st
  /\ Forall (fun a => a ∈ armors) (snd st)
  /\ Rounded.defense_from fadd (Rounded.cell fadd armors k (Z.to_nat (fst st)))
       (rev (snd st))
     = Rounded.cell fadd armors n W.

Lemma rounded_choose_step_walked (k : nat) (st : Z * list ArmorItem) :
  (1 <= k <= n)%nat ->
  walked k st ->
  walked (k - 1) (choose_step armors table k st).
Proof.
  intros Hk. destruct st as [horz choice]. unfold walked. simpl fst. simpl snd.
  intros (Hh & Hcost & Hin & Hdef).
  destruct (rounded_build_table_spec fadd armors total_cost_arg
              costs_positive budget_nonneg) as [_ Hrd].
  fold n W table in Hrd.
  unfold choose_step.
  rewrite !Hrd by lia.
  destruct k as [|k]; [lia|].
  replace (S k - 1)%nat with k by lia.
  pose proof (rounded_cell_nonneg fadd armors k (Z.to_nat horz)) as Hge0.
  destruct (Qeq_bool (Rounded.cell fadd armors (S k) (Z.to_nat horz)) 0) eqn:Hzero;
    cbn [negb].
  { apply Qeq_bool_iff in Hzero. simpl fst. simpl snd.
    split; [lia|]. split; [exact Hcost|]. split; [exact Hin|].
    rewrite <- Hdef. f_equal. symmetry.
    destruct (rounded_cell_succ_cases fadd armors k (Z.to_nat horz))
      as [H|(a & _ & _ & Hlt & _)]; [exact H|]. lra. }
  destruct (Qeq_bool (Rounded.cell fadd armors (S k) (Z.to_nat horz))
              (Rounded.cell fadd armors k (Z.to_nat horz))) eqn:Hsame; cbn [negb].
  { apply Qeq_bool_iff in Hsame. simpl fst. simpl snd.
    split; [lia|]. split; [exact Hcost|]. split; [exact Hin|].
    rewrite <- Hdef. f_equal. symmetry.
    now apply rounded_cell_copied. }
  apply Qeq_bool_false in Hsame.
  destruct (rounded_cell_succ_cases fadd armors k (Z.to_nat horz))
    as [Heq|(a & Ha & Hfit & Hlt & Hval)].
  { exfalso. apply Hsame. now rewrite Heq. }
  rewrite Ha. rewrite Z2Nat.id in Hfit by lia.
  rewrite Z2Nat.id in Hval by lia.
  pose proof (Forall_lookup_1 _ _ _ _ costs_positive Ha) as Hpos.
  simpl in Hpos. simpl fst. simpl snd.
  split; [lia|]. split; [rewrite total_cost_app; lia|]. split.
  { apply Forall_app. split; [assumption|].
    constructor; [|constructor]. eapply list_elem_of_lookup_2. exact Ha. }
  rewrite rev_app_distr. simpl rev. simpl app.
  unfold Rounded.defense_from in *. simpl fold_left.
  rewrite <- Hval. exact Hdef.
Qed.

Lemma rounded_dynamic_walk :
  walked 0 (for_down n (choose_step armors table) (total_cost_arg, [])).
Proof.
  apply (for_down_ind walked).
  - unfold walked. simpl. split; [lia|]. split; [unfold total_cost; simpl; lia|].
    split; [constructor|reflexivity].
  - intros k st Hk. now apply rounded_choose_step_walked.
Qed.

(** The last cell of the table is the sum of the defenses of the items
    returned, added in the order of the catalog. *)
Lemma rounded_dynamic_max_defense_cell :
  Rounded.total_defense fadd (rev (Rounded.dynamic_max_defense fadd armors total_cost_arg))
  = Rounded.cell fadd armors n W.
Proof.
  pose proof rounded_dynamic_walk as (_ & _ & _ & Hdef).
  unfold Rounded.dynamic_max_defense. cbv zeta. fold table n.
  exact Hdef.
Qed.

(** What is returned is made of items of the catalog and costs at most the
    budget. *)
Lemma rounded_dynamic_max_defense_cost :
  total_cost (Rounded.dynamic_max_defense fadd armors total_cost_arg) <= total_cost_arg
  /\ Forall (fun a => a ∈ armors) (Rounded.dynamic_max_defense fadd armors total_cost_arg).
Proof.
  pose proof rounded_dynamic_walk as (Hh & Hcost & Hin & _).
  unfold Rounded.dynamic_max_defense. cbv zeta. fold table n.
  split; [lia|exact Hin].
Qed.

End RoundedReconstruction.

(** ** The exhaustive solver in double arithmetic *)

Section RoundedExhaustive.

Variable fadd : Q -> Q -> Q.
Variables (armors : list ArmorItem) (budget : Q).

Let n := length armors.

Let held (k : nat) (st : list ArmorItem * Q) : Prop :=
  exists m, st = (subset_of armors m, Rounded.total_defense fadd (subset_of armors m))
            /\ Rounded.best_upto fadd armors budget (Z.of_nat k) m.

Lemma rounded_held_start : held 0 ([], 0%Q).
Proof.
  exists 0. rewrite subset_of_0. split; [reflexivity|].
  unfold Rounded.best_upto. rewrite subset_of_0. split; [now left|].
  split; [apply Qle_refl|]. intros m' Hm'. lia.
Qed.

Lemma rounded_exhaustive_step_held (k : nat) (s s' : list ArmorItem * Q) :
  held k s ->
  Rounded.exhaustive_step fadd armors n budget (Z.of_nat k) s = Ok s' ->
  held (S k) s'.
Proof.
  intros (m & -> & Hm & Hpos & Hbest). unfold Rounded.exhaustive_step.
  change (candidate_of armors n (Z.of_nat k))
    with (subset_of armors (Z.of_nat k)).
  destruct (Rounded.sum_armor_vector fadd (subset_of armors (Z.of_nat k)))
    as [[c d]| |] eqn:Hsum; try discriminate.
  apply rounded_sum_armor_vector_inv in Hsum as [-> ->]. rewrite bind_Ok.
  destruct (Qlt_bool _ _ && Qle_bool _ _) eqn:Hrepl; intros [= <-].
  - apply andb_true_iff in Hrepl as [Hlt Hfit].
    apply Qlt_bool_iff in Hlt. apply Qle_bool_iff in Hfit.
    exists (Z.of_nat k). split; [reflexivity|]. split; [|split].
    + destruct k as [|k]; [now left|]. right. split; [lia|exact Hfit].
    + lra.
    + intros m' Hm' Hf.
      destruct (Z.eq_dec m' (Z.of_nat k)) as [->|Hne].
      * split; [apply Qle_refl|]. intros _. lia.
      * destruct (Hbest m') as [Hle _]; [lia|assumption|].
        split; [lra|]. intros Heq. lra.
  - exists m. split; [reflexivity|]. split; [|split].
    + destruct Hm as [->|[Hr Hf]]; [now left|]. right. split; [lia|exact Hf].
    + exact Hpos.
    + intros m' Hm' Hf.
      destruct (Z.eq_dec m' (Z.of_nat k)) as [->|Hne].
      * apply andb_false_iff in Hrepl as [Hlt|Hfit].
        -- apply Qlt_bool_false in Hlt. split; [exact Hlt|].
           intros _. destruct Hm as [->|[Hr _]]; lia.
        -- apply Qle_bool_false in Hfit. unfold feasible in Hf. lra.
      * apply Hbest; [lia|assumption].
Qed.

(** What the solver returns, when it returns. *)
Lemma rounded_exhaustive_returns (r : list ArmorItem) :
  Rounded.exhaustive_max_defense fadd armors budget = Ok r ->
  (n <= 30)%nat
  /\ exists m, r = subset_of armors m
               /\ Rounded.best_upto fadd armors budget (2 ^ Z.of_nat n) m.
Proof.
  unfold Rounded.exhaustive_max_defense. fold n.
  destruct (negb (n <? 64)%nat); [discriminate|].
  unfold double_to_int.
  destruct (in_int (2 ^ Z.of_nat n)) eqn:Hint; [|discriminate].
  apply pow2_in_int in Hint. simpl.
  destruct (for_masks _ _ _) as [st| |] eqn:Hrun; try discriminate.
  simpl. intros [= <-]. split; [exact Hint|].
  assert (Hpow : 2 ^ Z.of_nat n = Z.of_nat (Z.to_nat (2 ^ Z.of_nat n))).
  { rewrite Z2Nat.id; [reflexivity|]. apply Z.pow_nonneg. lia. }
  rewrite Hpow in Hrun.
  apply (for_masks_ind held) in Hrun.
  - destruct Hrun as (m & -> & Hm). exists m. split; [reflexivity|].
    now rewrite Hpow.
  - apply rounded_held_start.
  - intros k s s' _. apply rounded_exhaustive_step_held.
Qed.

(** The solver returns for up to 30 items whose costs add up within [int]. *)
Lemma rounded_exhaustive_total :
  (n <= 30)%nat ->
  Forall (fun a => 0 < cost a) armors ->
  total_cost armors <= INT_MAX ->
  exists r, Rounded.exhaustive_max_defense fadd armors budget = Ok r.
Proof.
  intros Hn Hpos Hsum. unfold Rounded.exhaustive_max_defense. fold n.
  replace (n <? 64)%nat with true by (symmetry; apply Nat.ltb_lt; lia).
  unfold double_to_int.
  replace (in_int (2 ^ Z.of_nat n)) with true
    by (symmetry; now apply pow2_in_int).
  simpl.
  assert (Hpow : 2 ^ Z.of_nat n = Z.of_nat (Z.to_nat (2 ^ Z.of_nat n))).
  { rewrite Z2Nat.id; [reflexivity|]. apply Z.pow_nonneg. lia. }
  rewrite Hpow.
  destruct (for_masks_total (Z.to_nat (2 ^ Z.of_nat n))
              (Rounded.exhaustive_step fadd armors n budget) ([], 0%Q)) as [st Hst].
  - intros k [bestset bestdefense] _. unfold Rounded.exhaustive_step.
    change (candidate_of armors n (Z.of_nat k))
    with (subset_of armors (Z.of_nat k)).
    destruct (subset_of_within armors (Z.of_nat k) Hpos) as [Hc Hle].
    rewrite rounded_sum_armor_vector_total by (trivial; lia). rewrite bind_Ok.
    destruct (Qlt_bool _ _ && Qle_bool _ _); eauto.
  - rewrite Hst. simpl. eauto.
Qed.

End RoundedExhaustive.

Lemma rounded_exhaustive_monotone (fadd : Q -> Q -> Q) (armors : list ArmorItem)
    (budget1 budget2 : Q) (r1 r2 : list ArmorItem) :
  (budget1 <= budget2)%Q ->
  Rounded.exhaustive_max_defense fadd armors budget1 = Ok r1 ->
  Rounded.exhaustive_max_defense fadd armors budget2 = Ok r2 ->
  (Rounded.total_defense fadd r1 <= Rounded.total_defense fadd r2)%Q.
Proof.
  intros Hle H1 H2.
  destruct (rounded_exhaustive_returns fadd armors _ r1 H1) as (_ & m1 & -> & Hm1 & _).
  destruct (rounded_exhaustive_returns fadd armors _ r2 H2)
    as (_ & m2 & -> & _ & Hpos2 & Hbest2).
  destruct Hm1 as [->|[Hr Hf]].
  - rewrite subset_of_0. exact Hpos2.
  - apply Hbest2; [lia|]. unfold feasible in *. lra.
Qed.


(** ** The addition of doubles *)

Lemma pow2_pos (e : Z) : (0 < 2 ^ e)%Q.
Proof. apply Qpower_0_lt. reflexivity. Qed.

Lemma pow2_succ (e : Z) : (2 ^ (e + 1) == 2 * 2 ^ e)%Q.
Proof.
  rewrite Qpower_plus by discriminate. rewrite Qpower_1_r. ring.
Qed.

Lemma pow2_le (a b : Z) : a <= b -> (2 ^ a <= 2 ^ b)%Q.
Proof. intros H. apply Qpower_le_compat_l; [exact H|discriminate]. Qed.

Lemma ilog2_spec (x : Q) :
  (0 < x)%Q -> (2 ^ ilog2 x <= x)%Q /\ (x < 2 ^ (ilog2 x + 1))%Q.
Proof.
  intros Hx. destruct x as [n d]. unfold ilog2. cbn [Qnum Qden].
  assert (Hn : 0 < n).
  { unfold Qlt in Hx. simpl in Hx. lia. }
  destruct (Z.log2_spec n Hn) as [Hn1 Hn2].
  destruct (Z.log2_spec (Z.pos d) ltac:(lia)) as [Hd1 Hd2].
  set (ln := Z.log2 n) in *. set (ld := Z.log2 (Z.pos d)) in *.
  assert (Hln : 0 <= ln) by apply Z.log2_nonneg.
  assert (Hld : 0 <= ld) by apply Z.log2_nonneg.
  assert (HA : (inject_Z (2 ^ ln) == 2 ^ ln)%Q) by (now apply Zpower_Qpower).
  assert (HB : (inject_Z (2 ^ ld) == 2 ^ ld)%Q) by (now apply Zpower_Qpower).
  assert (HP : (2 ^ (ln - ld) * 2 ^ ld == 2 ^ ln)%Q).
  { rewrite <- Qpower_plus by discriminate. now replace (ln - ld + ld) with ln by lia. }
  assert (HX : ((n # d) * inject_Z (Z.pos d) == inject_Z n)%Q).
  { unfold Qeq, Qmult, inject_Z. simpl. lia. }
  pose proof (pow2_pos (ln - ld)) as Hp0.
  pose proof (pow2_pos ld) as Hb0.
  assert (HD : (2 ^ ld <= inject_Z (Z.pos d))%Q).
  { rewrite <- HB. now rewrite <- Zle_Qle. }
  assert (HD2 : (inject_Z (Z.pos d) < 2 * 2 ^ ld)%Q).
  { rewrite <- HB. change 2%Q with (inject_Z 2). rewrite <- inject_Z_mult.
    rewrite <- Zlt_Qlt. rewrite Z.pow_succ_r in Hd2 by lia. lia. }
  assert (HN : (2 ^ ln <= inject_Z n)%Q).
  { rewrite <- HA. now rewrite <- Zle_Qle. }
  assert (HN2 : (inject_Z n < 2 * 2 ^ ln)%Q).
  { rewrite <- HA. change 2%Q with (inject_Z 2). rewrite <- inject_Z_mult.
    rewrite <- Zlt_Qlt. rewrite Z.pow_succ_r in Hn2 by lia. lia. }
  set (X := (n # d)%Q) in *. set (D := inject_Z (Z.pos d)) in *.
  set (N := inject_Z n) in *.
  set (P := (2 ^ (ln - ld))%Q) in *. set (B := (2 ^ ld)%Q) in *.
  set (A := (2 ^ ln)%Q) in *.
  assert (Hup : (X < 2 * P)%Q).
  { apply Qnot_le_lt. intros Hle.
    assert ((2 * P * B <= X * D)%Q) by nra. nra. }
  assert (Hlow : (P < 2 * X)%Q).
  { apply Qnot_le_lt. intros Hle.
    assert ((2 * X * D <= P * D)%Q) by nra.
    assert ((P * D < 2 * P * B)%Q) by nra. nra. }
  destruct (Qle_bool P X) eqn:Hcmp.
  - apply Qle_bool_iff in Hcmp. split; [exact Hcmp|].
    fold P. rewrite pow2_succ. exact Hup.
  - assert (HPX : (X < P)%Q).
    { apply Qnot_le_lt. intros H. apply Qle_bool_iff in H. congruence. }
    replace (ln - ld - 1 + 1) with (ln - ld) by lia. split; [|exact HPX].
    assert (Hhalf : (2 * 2 ^ (ln - ld - 1) == P)%Q).
    { rewrite <- pow2_succ. unfold P. now replace (ln - ld - 1 + 1) with (ln - ld) by lia. }
    pose proof (pow2_pos (ln - ld - 1)). nra.
Qed.

Lemma ilog2_le (x y : Q) : (0 < x)%Q -> (x <= y)%Q -> ilog2 x <= ilog2 y.
Proof.
  intros Hx Hxy.
  destruct (ilog2_spec x Hx) as [H1 H2].
  destruct (ilog2_spec y ltac:(lra)) as [H3 H4].
  destruct (Z.le_gt_cases (ilog2 x) (ilog2 y)) as [|Hgt]; [assumption|].
  pose proof (pow2_le (ilog2 y + 1) (ilog2 x) ltac:(lia)). lra.
Qed.

Lemma round_half_even_bounds (x : Q) :
  Qfloor x <= round_half_even x <= Qfloor x + 1.
Proof.
  unfold round_half_even.
  destruct (x - inject_Z (Qfloor x) ?= 1 # 2)%Q; [destruct (Z.even _)| |]; lia.
Qed.

Lemma round_half_even_Z (k : Z) : round_half_even (inject_Z k) = k.
Proof.
  unfold round_half_even. rewrite Qfloor_Z.
  replace (inject_Z k - inject_Z k ?= 1 # 2)%Q with Lt; [reflexivity|].
  symmetry. apply (proj1 (Qlt_alt _ _)). lra.
Qed.

Lemma round_half_even_le (x y : Q) :
  (x <= y)%Q -> round_half_even x <= round_half_even y.
Proof.
  intros Hxy.
  pose proof (Qfloor_resp_le x y Hxy) as Hf.
  pose proof (round_half_even_bounds x) as Hx.
  pose proof (round_half_even_bounds y) as Hy.
  destruct (Z.eq_dec (Qfloor x) (Qfloor y)) as [Heq|Hne]; [|lia].
  unfold round_half_even in *. rewrite <- Heq in *.
  destruct (x - inject_Z (Qfloor x) ?= 1 # 2)%Q eqn:Hcx;
    destruct (y - inject_Z (Qfloor x) ?= 1 # 2)%Q eqn:Hcy;
    try (destruct (Z.even (Qfloor x))); try lia; exfalso;
    repeat match goal with
           | H : (_ ?= _)%Q = Eq |- _ => apply (proj2 (Qeq_alt _ _)) in H
           | H : (_ ?= _)%Q = Lt |- _ => apply (proj2 (Qlt_alt _ _)) in H
           | H : (_ ?= _)%Q = Gt |- _ => apply (proj2 (Qgt_alt _ _)) in H
           end; lra.
Qed.

Lemma binary64_round_eq (x : Q) :
  ~ (x == 0)%Q -> (binary64_round x == rounded_at (exponent_of x) x)%Q.
Proof.
  intros Hx. unfold binary64_round.
  destruct (Qeq_bool x 0) eqn:H0; [apply Qeq_bool_iff in H0; contradiction|].
  apply Qred_correct.
Qed.

Lemma binary64_round_0 (x : Q) : (x == 0)%Q -> binary64_round x = 0%Q.
Proof.
  intros Hx. unfold binary64_round.
  now replace (Qeq_bool x 0) with true by (symmetry; now apply Qeq_bool_iff).
Qed.

Lemma rounded_at_le (e : Z) (x y : Q) :
  (x <= y)%Q -> (rounded_at e x <= rounded_at e y)%Q.
Proof.
  intros Hxy. unfold rounded_at.
  pose proof (pow2_pos (e - 52)) as Hu.
  apply Qmult_le_compat_r; [|lra].
  rewrite <- Zle_Qle. apply round_half_even_le.
  apply Qmult_le_compat_r; [exact Hxy|].
  apply Qinv_le_0_compat. lra.
Qed.

(** Scaling by the unit in the last place. *)
Lemma scaled_le (e : Z) (x : Q) (k : Z) :
  (x <= inject_Z k * 2 ^ (e - 52))%Q -> (rounded_at e x <= inject_Z k * 2 ^ (e - 52))%Q.
Proof.
  intros H. unfold rounded_at.
  pose proof (pow2_pos (e - 52)) as Hu.
  apply Qmult_le_compat_r; [|lra].
  rewrite <- Zle_Qle. rewrite <- (round_half_even_Z k).
  apply round_half_even_le.
  apply Qle_shift_div_r; assumption.
Qed.

Lemma scaled_ge (e : Z) (x : Q) (k : Z) :
  (inject_Z k * 2 ^ (e - 52) <= x)%Q -> (inject_Z k * 2 ^ (e - 52) <= rounded_at e x)%Q.
Proof.
  intros H. unfold rounded_at.
  pose proof (pow2_pos (e - 52)) as Hu.
  apply Qmult_le_compat_r; [|lra].
  rewrite <- Zle_Qle. rewrite <- (round_half_even_Z k) at 1.
  apply round_half_even_le.
  apply Qle_shift_div_l; assumption.
Qed.

Lemma pow2_53 (e : Z) : (inject_Z (2 ^ 53) * 2 ^ (e - 52) == 2 ^ (e + 1))%Q.
Proof.
  rewrite Zpower_Qpower by lia. change (inject_Z 2) with 2%Q.
  rewrite <- Qpower_plus by discriminate. now replace (53 + (e - 52)) with (e + 1) by lia.
Qed.

Lemma pow2_52 (e : Z) : (inject_Z (2 ^ 52) * 2 ^ (e - 52) == 2 ^ e)%Q.
Proof.
  rewrite Zpower_Qpower by lia. change (inject_Z 2) with 2%Q.
  rewrite <- Qpower_plus by discriminate. now replace (52 + (e - 52)) with e by lia.
Qed.

Lemma exponent_of_pos (x : Q) :
  (0 < x)%Q ->
  (x < 2 ^ (exponent_of x + 1))%Q
  /\ (-1022 < exponent_of x -> (2 ^ exponent_of x <= x)%Q)
  /\ exponent_of x = Z.max (ilog2 x) (-1022).
Proof.
  intros Hx. unfold exponent_of.
  assert (Habs : Qabs x = x).
  { destruct x as [n d]. unfold Qlt in Hx. simpl in Hx.
    unfold Qabs. f_equal. apply Z.abs_eq. lia. }
  rewrite Habs.
  destruct (ilog2_spec x Hx) as [H1 H2].
  split; [|split; [|reflexivity]].
  - pose proof (pow2_le (ilog2 x + 1) (Z.max (ilog2 x) (-1022) + 1) ltac:(lia)). lra.
  - intros Hn. now replace (Z.max (ilog2 x) (-1022)) with (ilog2 x) by lia.
Qed.

Lemma exponent_of_neg (x : Q) :
  (x < 0)%Q ->
  (- 2 ^ (exponent_of x + 1) < x)%Q
  /\ (-1022 < exponent_of x -> (x <= - 2 ^ exponent_of x)%Q)
  /\ exponent_of x = Z.max (ilog2 (- x)) (-1022).
Proof.
  intros Hx. unfold exponent_of.
  assert (Habs : Qabs x = (- x)%Q).
  { destruct x as [n d]. unfold Qlt in Hx. simpl in Hx.
    unfold Qabs, Qopp. simpl. f_equal. apply Z.abs_neq. lia. }
  rewrite Habs.
  destruct (ilog2_spec (- x) ltac:(lra)) as [H1 H2].
  split; [|split; [|reflexivity]].
  - pose proof (pow2_le (ilog2 (- x) + 1) (Z.max (ilog2 (- x)) (-1022) + 1) ltac:(lia)).
    lra.
  - intros Hn. replace (Z.max (ilog2 (- x)) (-1022)) with (ilog2 (- x)) by lia. lra.
Qed.

Lemma rounded_at_nonneg (e : Z) (x : Q) : (0 <= x)%Q -> (0 <= rounded_at e x)%Q.
Proof.
  intros Hx. pose proof (scaled_ge e x 0) as H.
  rewrite Qmult_0_l in H. now apply H.
Qed.

Lemma rounded_at_nonpos (e : Z) (x : Q) : (x <= 0)%Q -> (rounded_at e x <= 0)%Q.
Proof.
  intros Hx. pose proof (scaled_le e x 0) as H.
  rewrite Qmult_0_l in H. now apply H.
Qed.

(** Rounding to the nearest double never reverses an order. *)
Lemma binary64_round_le (x y : Q) :
  (x <= y)%Q -> (binary64_round x <= binary64_round y)%Q.
Proof.
  intros Hxy.
  destruct (Qeq_dec x 0) as [Hx0|Hx0]; destruct (Qeq_dec y 0) as [Hy0|Hy0].
  - rewrite !binary64_round_0 by assumption. apply Qle_refl.
  - rewrite (binary64_round_0 x Hx0), (binary64_round_eq y Hy0).
    apply rounded_at_nonneg. lra.
  - rewrite (binary64_round_0 y Hy0), (binary64_round_eq x Hx0).
    apply rounded_at_nonpos. lra.
  - rewrite (binary64_round_eq x Hx0), (binary64_round_eq y Hy0).
    destruct (Qlt_le_dec x 0) as [Hxneg|Hxpos];
      destruct (Qlt_le_dec y 0) as [Hyneg|Hypos].
    + (* both negative *)
      destruct (exponent_of_neg x Hxneg) as (Hx1 & Hx2 & Hx3).
      destruct (exponent_of_neg y Hyneg) as (Hy1 & Hy2 & Hy3).
      pose proof (ilog2_le (- y) (- x) ltac:(lra) ltac:(lra)) as Hlog.
      destruct (Z.eq_dec (exponent_of x) (exponent_of y)) as [Heq|Hne].
      * rewrite Heq. now apply rounded_at_le.
      * assert (Hlt : exponent_of y < exponent_of x) by lia.
        apply Qle_trans with (- 2 ^ exponent_of x)%Q.
        -- pose proof (scaled_le (exponent_of x) x (- 2 ^ 52)) as H.
           rewrite inject_Z_opp in H.
           setoid_replace (- inject_Z (2 ^ 52) * 2 ^ (exponent_of x - 52))%Q
             with (- 2 ^ exponent_of x)%Q using relation Qeq in H
             by (rewrite <- (pow2_52 (exponent_of x)); ring).
           apply H. apply Hx2. lia.
        -- apply Qle_trans with (- 2 ^ (exponent_of y + 1))%Q.
           ++ pose proof (pow2_le (exponent_of y + 1) (exponent_of x) ltac:(lia)). lra.
           ++ pose proof (scaled_ge (exponent_of y) y (- 2 ^ 53)) as H.
              rewrite inject_Z_opp in H.
              setoid_replace (- inject_Z (2 ^ 53) * 2 ^ (exponent_of y - 52))%Q
                with (- 2 ^ (exponent_of y + 1))%Q using relation Qeq in H
                by (rewrite <- (pow2_53 (exponent_of y)); ring).
              apply H. lra.
    + apply Qle_trans with 0%Q;
        [apply rounded_at_nonpos; lra | apply rounded_at_nonneg; lra].
    + lra.
    + (* both positive *)
      assert (Hxp : (0 < x)%Q).
      { destruct (Qle_lt_or_eq _ _ Hxpos) as [|Heq]; [assumption|].
        exfalso. apply Hx0. now symmetry. }
      assert (Hyp : (0 < y)%Q) by lra.
      destruct (exponent_of_pos x Hxp) as (Hx1 & Hx2 & Hx3).
      destruct (exponent_of_pos y Hyp) as (Hy1 & Hy2 & Hy3).
      pose proof (ilog2_le x y Hxp Hxy) as Hlog.
      destruct (Z.eq_dec (exponent_of x) (exponent_of y)) as [Heq|Hne].
      * rewrite Heq. now apply rounded_at_le.
      * assert (Hlt : exponent_of x < exponent_of y) by lia.
        apply Qle_trans with (2 ^ (exponent_of x + 1))%Q.
        -- pose proof (scaled_le (exponent_of x) x (2 ^ 53)) as H.
           rewrite pow2_53 in H. apply H. lra.
        -- apply Qle_trans with (2 ^ exponent_of y)%Q.
           ++ apply pow2_le. lia.
           ++ pose proof (scaled_ge (exponent_of y) y (2 ^ 52)) as H.
              rewrite pow2_52 in H. apply H. apply Hy2. lia.
Qed.

Lemma binary64_add_monotone (x y v : Q) :
  (x <= y)%Q -> (binary64_add x v <= binary64_add y v)%Q.
Proof.
  intros Hxy. unfold binary64_add. apply binary64_round_le. lra.
Qed.

(** On the samples, in every pair, [binary64_add] gives the sum that the
    primitive floats give; the defenses of cuirass, greaves, gloves and cap
    are the doubles written 0.6, 0.3, 0.2 and 0.1; and in primitive floats
    0.3 + 0.2 + 0.1 is 0.6 while 0.1 + 0.2 + 0.3 is more. *)
Lemma binary64_add_primitive :
  forallb (fun x => forallb (agrees_with_primitive x) float_samples) float_samples
  = true
  /\ map Q_of_float [0.6; 0.3; 0.2; 0.1]%float
     = map defense [cuirass; greaves; gloves; cap]
  /\ PrimFloat.eqb (0.3 + 0.2 + 0.1) 0.6 = true
  /\ PrimFloat.ltb 0.6 (0.1 + 0.2 + 0.3) = true.
Proof. split; [|split; [|split]]; vm_compute; reflexivity. Qed.

(** * The claims *)

(** ** Filter *)

(** C5, as stated, fails: an item of defense -1 lies in (-5, 5] and nothing
    has been kept yet under the limit 1, but the filter drops it; and under
    the limit -1 the result holds one item, more than the limit. *)
Lemma filter_armor_vector_not_as_stated :
  ~ (In rags (filter_armor_vector [rags] (-5) 5 1)
     <-> ((-5 < defense rags)%Q /\ (defense rags <= 5)%Q
          /\ Z.of_nat (length (filter_armor_vector [] (-5) 5 1)) < 1))
  /\ ~ (Z.of_nat (length (filter_armor_vector [helmet] 0 5 (-1))) <= -1).
Proof.
  split.
  - intros [_ H]. apply H. vm_compute. repeat split; discriminate.
  - vm_compute. intros H. now apply H.
Qed.

Lemma filter_armor_vector_rule_witness :
  INT_MIN <= 1 <= INT_MAX
  /\ Forall (fun a => (0 < defense a)%Q /\ (0 < defense a)%Q /\ (defense a <= 4)%Q)
       (filter_armor_vector [rags; helmet; shield; boots] 0 4 1)
  /\ Z.of_nat (length (filter_armor_vector [rags; helmet; shield; boots] 0 4 1)) <= 1.
Proof.
  assert (Hint : INT_MIN <= 1 <= INT_MAX) by (unfold INT_MIN, INT_MAX; lia).
  split; [exact Hint|].
  destruct (filter_armor_vector_rule [rags; helmet; shield; boots] 0 4 1 Hint)
    as (_ & Hall & Hlen).
  split; [exact Hall|]. apply Hlen. lia.
Defined.

Lemma filter_armor_vector_negative_limit_witness :
  INT_MIN <= -1 < 0
  /\ Z.of_nat (length [rags; helmet; shield; boots]) <= INT_MAX
  /\ filter_armor_vector [rags; helmet; shield; boots] 0 4 (-1) = [helmet; boots].
Proof.
  assert (Hlimit : INT_MIN <= -1 < 0) by (unfold INT_MIN; lia).
  assert (Hlen : Z.of_nat (length [rags; helmet; shield; boots]) <= INT_MAX)
    by (unfold INT_MAX; simpl; lia).
  split; [exact Hlimit|]. split; [exact Hlen|].
  destruct (filter_armor_vector_negative_limit
              [rags; helmet; shield; boots] 0 4 (-1) Hlimit Hlen) as [Heq _].
  rewrite Heq. reflexivity.
Defined.

(** ** The two solvers *)

(** C1: on one item whose cost is the whole budget the solvers disagree: the
    dynamic solver returns nothing (defense 0), the exhaustive solver the
    item (defense 4). *)
Theorem solvers_disagree_at_exact_cost :
  (length [amulet] < 64)%nat
  /\ Forall (fun a => 0 < cost a) [amulet]
  /\ dynamic_max_defense [amulet] 5 = []
  /\ exhaustive_max_defense [amulet] 5 = Ok [amulet]
  /\ ~ (total_defense [] == total_defense [amulet])%Q.
Proof.
  split; [simpl; lia|]. split; [repeat constructor|].
  split; [reflexivity|]. split; [reflexivity|].
  vm_compute. discriminate.
Qed.

(** C2: the table of the dynamic solver does not follow the recurrence at a
    cell whose column is the cost of the item: for one item of cost 5 and
    defense 4, [T[1][5]] is 0, where the recurrence gives
    [max(T[0][5], T[0][0] + 4) = 4]. *)
Theorem table_skips_exact_cost :
  cost amulet <= 5
  /\ rd (build_table [amulet] 5) 1 5 = 0%Q
  /\ (max (rd (build_table [amulet] 5) 0 5)
          (rd (build_table [amulet] 5) 0 (Z.to_nat (5 - cost amulet))
           + defense amulet) == 4)%Q.
Proof.
  split; [simpl; lia|]. split; reflexivity.
Qed.

(** C3: on helmet (3, 4), shield (4, 5), boots (2, 3) and budget 5 the
    exhaustive solver returns helmet and boots, of defense 7 and cost 5; the
    dynamic solver returns the shield alone, of defense 5. *)
Theorem scenario_helmet_shield_boots :
  exhaustive_max_defense [helmet; shield; boots] 5 = Ok [helmet; boots]
  /\ (total_defense [helmet; boots] == 7)%Q
  /\ total_cost [helmet; boots] = 5
  /\ dynamic_max_defense [helmet; shield; boots] 5 = [shield]
  /\ (total_defense [shield] == 5)%Q.
Proof.
  repeat split; reflexivity.
Qed.

(** C4: on two items of cost [2^30] and budget 10 the exhaustive solver
    leaves defined behaviour, whatever the addition of doubles: the [int]
    total of [sum_armor_vector] overflows on the candidate of mask 3, which
    holds both items and costs [2^31], more than the budget. *)
Theorem exhaustive_overflows_past_budget (fadd : Q -> Q -> Q) :
  (length [plate; mail] < 64)%nat
  /\ Forall (fun a => 0 < cost a) [plate; mail]
  /\ Rounded.exhaustive_max_defense fadd [plate; mail] 10 = UndefinedBehaviour
  /\ candidate_of [plate; mail] 2 3 = [plate; mail]
  /\ Rounded.sum_armor_vector fadd [plate; mail] = UndefinedBehaviour
  /\ total_cost [plate; mail] = 2 ^ 31
  /\ 10 < total_cost [plate; mail].
Proof.
  split; [simpl; lia|]. split; [repeat constructor|].
  split; [|split; [reflexivity|split; [reflexivity|split; reflexivity]]].
  unfold Rounded.exhaustive_max_defense, for_masks. simpl.
  unfold Rounded.exhaustive_step. simpl.
  replace (Qle_bool (inject_Z (0 + 2 ^ 30)) 10) with false by reflexivity.
  rewrite andb_false_r. simpl. rewrite andb_false_r. reflexivity.
Qed.

(** C7, as stated, fails for the dynamic solver.  In double arithmetic, on
    cuirass (4, 0.6), greaves (1, 0.3), gloves (1, 0.2) and cap (1, 0.1), it
    returns cap, gloves and greaves under budget 4 and the cuirass alone
    under budget 5; the defenses of the first add up to 0.6000000000000001
    as [sum_armor_vector] adds them, and to more than the double 0.6 of the
    cuirass as exact numbers too. *)
Lemma dynamic_defense_not_monotone :
  Forall (fun a => 0 < cost a) [cuirass; greaves; gloves; cap]
  /\ 0 <= 4 <= 5
  /\ Rounded.dynamic_max_defense binary64_add [cuirass; greaves; gloves; cap] 4
     = [cap; gloves; greaves]
  /\ Rounded.dynamic_max_defense binary64_add [cuirass; greaves; gloves; cap] 5
     = [cuirass]
  /\ Rounded.sum_armor_vector binary64_add [cap; gloves; greaves]
     = Ok (3, Q_of_float 0.6000000000000001)
  /\ Rounded.sum_armor_vector binary64_add [cuirass] = Ok (4, Q_of_float 0.6)
  /\ ~ (Rounded.total_defense binary64_add
          (Rounded.dynamic_max_defense binary64_add [cuirass; greaves; gloves; cap] 4)
        <= Rounded.total_defense binary64_add
             (Rounded.dynamic_max_defense binary64_add [cuirass; greaves; gloves; cap] 5))%Q
  /\ ~ (total_defense [cap; gloves; greaves] <= total_defense [cuirass])%Q.
Proof.
  split; [repeat constructor|]. split; [lia|].
  split; [vm_compute; reflexivity|]. split; [vm_compute; reflexivity|].
  split; [vm_compute; reflexivity|]. split; [vm_compute; reflexivity|].
  split; vm_compute; intros H; now apply H.
Qed.

(** C7 (as amended): with the catalog fixed and an addition of doubles that
    is monotone, as the rounded addition is, a larger budget never lowers
    the last cell of the table of the dynamic solver, which is the sum of
    the defenses of what it returns added in the order of the catalog; and
    it never lowers the total defense that [sum_armor_vector] finds of what
    the exhaustive solver returns, which does return for up to 30 items
    whose costs add up within [int]. *)
Theorem defense_monotone_in_budget (fadd : Q -> Q -> Q)
    (armors : list ArmorItem) (budget1 budget2 : Z) :
  (forall x y v : Q, (x <= y)%Q -> (fadd x v <= fadd y v)%Q) ->
  Forall (fun a => 0 < cost a) armors ->
  0 <= budget1 <= budget2 ->
  (rd (Rounded.build_table fadd armors budget1) (length armors) (Z.to_nat budget1)
   <= rd (Rounded.build_table fadd armors budget2) (length armors) (Z.to_nat budget2))%Q
  /\ (Rounded.total_defense fadd (rev (Rounded.dynamic_max_defense fadd armors budget1))
      <= Rounded.total_defense fadd
           (rev (Rounded.dynamic_max_defense fadd armors budget2)))%Q
  /\ ((length armors <= 30)%nat -> total_cost armors <= INT_MAX ->
      exists r1 r2 d1 d2,
        Rounded.exhaustive_max_defense fadd armors (inject_Z budget1) = Ok r1
        /\ Rounded.exhaustive_max_defense fadd armors (inject_Z budget2) = Ok r2
        /\ Rounded.sum_armor_vector fadd r1 = Ok (total_cost r1, d1)
        /\ Rounded.sum_armor_vector fadd r2 = Ok (total_cost r2, d2)
        /\ (d1 <= d2)%Q).
Proof.
  intros Hmono Hpos Hbudget.
  assert (Hcell : (Rounded.cell fadd armors (length armors) (Z.to_nat budget1)
                   <= Rounded.cell fadd armors (length armors) (Z.to_nat budget2))%Q).
  { apply rounded_cell_column_le; [exact Hmono|lia]. }
  split; [|split].
  - destruct (rounded_build_table_spec fadd armors budget1 Hpos ltac:(lia)) as [_ H1].
    destruct (rounded_build_table_spec fadd armors budget2 Hpos ltac:(lia)) as [_ H2].
    rewrite H1, H2 by lia. exact Hcell.
  - rewrite !rounded_dynamic_max_defense_cell by (trivial; lia). exact Hcell.
  - intros Hn Hsum.
    destruct (rounded_exhaustive_total fadd armors (inject_Z budget1) Hn Hpos Hsum)
      as [r1 H1].
    destruct (rounded_exhaustive_total fadd armors (inject_Z budget2) Hn Hpos Hsum)
      as [r2 H2].
    exists r1, r2, (Rounded.total_defense fadd r1), (Rounded.total_defense fadd r2).
    split; [exact H1|]. split; [exact H2|].
    assert (Hsub : forall budget r,
              Rounded.exhaustive_max_defense fadd armors budget = Ok r ->
              Rounded.sum_armor_vector fadd r
              = Ok (total_cost r, Rounded.total_defense fadd r)).
    { intros budget r Hr.
      destruct (rounded_exhaustive_returns fadd armors budget r Hr) as (_ & m & -> & _).
      destruct (subset_of_within armors m Hpos) as [Hc Hle].
      apply rounded_sum_armor_vector_total; [exact Hc|lia]. }
    split; [exact (Hsub _ _ H1)|]. split; [exact (Hsub _ _ H2)|].
    apply (rounded_exhaustive_monotone fadd armors (inject_Z budget1) (inject_Z budget2));
      trivial.
    rewrite <- Zle_Qle. lia.
Qed.

Lemma defense_monotone_in_budget_witness :
  (forall x y v : Q, (x <= y)%Q -> (binary64_add x v <= binary64_add y v)%Q)
  /\ Forall (fun a => 0 < cost a) [cuirass; greaves; gloves; cap]
  /\ 0 <= 4 <= 5
  /\ (rd (Rounded.build_table binary64_add [cuirass; greaves; gloves; cap] 4) 4 4
      <= rd (Rounded.build_table binary64_add [cuirass; greaves; gloves; cap] 5) 4 5)%Q
  /\ (Rounded.total_defense binary64_add [greaves; gloves; cap]
      <= Rounded.total_defense binary64_add [cuirass])%Q.
Proof.
  assert (Hpos : Forall (fun a => 0 < cost a) [cuirass; greaves; gloves; cap])
    by (repeat constructor).
  assert (Hbudget : 0 <= 4 <= 5) by lia.
  split; [exact binary64_add_monotone|]. split; [exact Hpos|].
  split; [exact Hbudget|].
  destruct (defense_monotone_in_budget binary64_add [cuirass; greaves; gloves; cap]
              4 5 binary64_add_monotone Hpos Hbudget) as (Htable & Hdyn & _).
  split; [exact Htable|exact Hdyn].
Defined.

(** C8: with 31 items, fewer than 64, the exhaustive solver enumerates
    nothing: [pow(2, 31)] does not fit the [int] [subsetAmt].  Mask 1 is
    feasible and of positive defense, so the empty subset is not the best. *)
Theorem exhaustive_thirty_one_items :
  (length (repeat ring 31) < 64)%nat
  /\ exhaustive_max_defense (repeat ring 31) 31 = UndefinedBehaviour
  /\ feasible (repeat ring 31) 31 1
  /\ (0 < total_defense (subset_of (repeat ring 31) 1))%Q.
Proof.
  split; [simpl; lia|]. split; [reflexivity|].
  split; vm_compute; [discriminate|reflexivity].
Qed.

(** C9: with budget 0 the exhaustive solver does not return the empty
    vector on the two items of cost [2^30], nor on 31 items of cost 1: it
    leaves defined behaviour, on the [int] total of the costs of mask 3 in
    the first case and on the [int] [subsetAmt] in the second, whatever the
    addition of doubles. *)
Theorem exhaustive_overflows_at_budget_0 (fadd : Q -> Q -> Q) :
  (length [plate; mail] < 64)%nat
  /\ Forall (fun a => 0 < cost a) [plate; mail]
  /\ Rounded.exhaustive_max_defense fadd [plate; mail] 0 = UndefinedBehaviour
  /\ (length (repeat ring 31) < 64)%nat
  /\ Forall (fun a => 0 < cost a) (repeat ring 31)
  /\ Rounded.exhaustive_max_defense fadd (repeat ring 31) 0 = UndefinedBehaviour.
Proof.
  split; [simpl; lia|]. split; [repeat constructor|].
  split; [|split; [simpl; lia|split; [repeat constructor|reflexivity]]].
  unfold Rounded.exhaustive_max_defense, for_masks. simpl.
  unfold Rounded.exhaustive_step. simpl.
  replace (Qle_bool (inject_Z (0 + 2 ^ 30)) 0) with false by reflexivity.
  rewrite andb_false_r. simpl. rewrite andb_false_r. reflexivity.
Qed.

(** * Further properties *)

(** ** The filter as a whole *)

Lemma filter_loop_take (min_defense max_defense : Q) (total_size : Z)
    (source kept : list ArmorItem) :
  Z.of_nat (length kept) <= int_to_size_t total_size ->
  fold_left (filter_step min_defense max_defense total_size) source kept
  = kept ++ take (Z.to_nat (int_to_size_t total_size) - length kept)
              (List.filter (in_range min_defense max_defense) source).
Proof.
  revert kept. induction source as [|a source IH]; intros kept Hlen; simpl.
  - now rewrite take_nil, app_nil_r.
  - rewrite filter_step_keeps. unfold filter_keeps.
    destruct (in_range min_defense max_defense a); simpl; [|now apply IH].
    destruct (Z.ltb_spec (Z.of_nat (length kept)) (int_to_size_t total_size))
      as [Hlt|Hge].
    + rewrite IH by (rewrite length_app; simpl; lia).
      rewrite length_app. simpl.
      replace (Z.to_nat (int_to_size_t total_size) - length kept)%nat
        with (S (Z.to_nat (int_to_size_t total_size) - (length kept + 1)))
        by lia.
      simpl. now rewrite <- app_assoc.
    + rewrite IH by assumption.
      replace (Z.to_nat (int_to_size_t total_size) - length kept)%nat
        with O by lia.
      now rewrite !take_0.
Qed.

Lemma filter_armor_vector_take (source : list ArmorItem)
    (min_defense max_defense : Q) (total_size : Z) :
  filter_armor_vector source min_defense max_defense total_size
  = take (Z.to_nat (int_to_size_t total_size))
      (List.filter (in_range min_defense max_defense) source).
Proof.
  unfold filter_armor_vector. rewrite filter_loop_take.
  - simpl. now rewrite Nat.sub_0_r.
  - unfold int_to_size_t. simpl. apply Z.mod_pos_bound. lia.
Qed.

Lemma sublist_of_filter {A : Type} (f : A -> bool) (l : list A) :
  List.filter f l `sublist_of` l.
Proof.
  induction l as [|x l IH]; simpl; [constructor|].
  destruct (f x); now constructor.
Qed.

(** X1: under a limit that is not negative the filter returns the first
    [limit] items of the source that have a strictly positive defense in
    (min_defense, max_defense], in the order of the source. *)
Theorem filter_armor_vector_first_matches (source : list ArmorItem)
    (min_defense max_defense : Q) (limit : Z) :
  0 <= limit <= INT_MAX ->
  filter_armor_vector source min_defense max_defense limit
  = take (Z.to_nat limit) (List.filter (in_range min_defense max_defense) source).
Proof.
  intros Hlimit. rewrite filter_armor_vector_take.
  now rewrite int_to_size_t_nonneg.
Qed.

Lemma filter_armor_vector_first_matches_witness :
  0 <= 2 <= INT_MAX
  /\ filter_armor_vector [rags; helmet; shield; boots; amulet] 0 4 2
     = [helmet; boots].
Proof.
  assert (Hlimit : 0 <= 2 <= INT_MAX) by (unfold INT_MAX; lia).
  split; [exact Hlimit|].
  rewrite (filter_armor_vector_first_matches _ 0 4 2 Hlimit). reflexivity.
Defined.

(** X2: whatever the bounds and the limit, the filter returns a subsequence
    of the source: items are neither reordered nor repeated, and nothing is
    returned that the source does not hold. *)
Theorem filter_armor_vector_subsequence (source : list ArmorItem)
    (min_defense max_defense : Q) (total_size : Z) :
  filter_armor_vector source min_defense max_defense total_size
  `sublist_of` source.
Proof.
  rewrite filter_armor_vector_take.
  etransitivity; [apply sublist_take | apply sublist_of_filter].
Qed.

(** X3: a minimum that is zero or negative acts as the minimum 0, since an
    item must have a strictly positive defense in any case. *)
Theorem filter_armor_vector_negative_minimum (source : list ArmorItem)
    (min_defense max_defense : Q) (total_size : Z) :
  (min_defense <= 0)%Q ->
  filter_armor_vector source min_defense max_defense total_size
  = filter_armor_vector source 0 max_defense total_size.
Proof.
  intros Hmin. rewrite !filter_armor_vector_take. f_equal.
  apply filter_ext. intros a. unfold in_range.
  destruct (Qlt_bool 0 (defense a)) eqn:Hpos; [|reflexivity].
  simpl. apply Qlt_bool_iff in Hpos.
  replace (Qlt_bool min_defense (defense a)) with true; [reflexivity|].
  symmetry. apply Qlt_bool_iff. lra.
Qed.

Lemma filter_armor_vector_negative_minimum_witness :
  (-7 <= 0)%Q
  /\ filter_armor_vector [rags; helmet; shield; boots] (-7) 4 3
     = filter_armor_vector [rags; helmet; shield; boots] 0 4 3.
Proof.
  assert (Hmin : (-7 <= 0)%Q) by (vm_compute; discriminate).
  split; [exact Hmin|].
  apply (filter_armor_vector_negative_minimum _ (-7) 4 3 Hmin).
Defined.

(** X4: raising a limit that is not negative only appends to the result. *)
Theorem filter_armor_vector_limit_prefix (source : list ArmorItem)
    (min_defense max_defense : Q) (limit limit' : Z) :
  0 <= limit <= limit' ->
  limit' <= INT_MAX ->
  exists rest,
    filter_armor_vector source min_defense max_defense limit'
    = filter_armor_vector source min_defense max_defense limit ++ rest.
Proof.
  intros Hle Hmax.
  rewrite !filter_armor_vector_take, !int_to_size_t_nonneg by lia.
  set (l := List.filter (in_range min_defense max_defense) source).
  exists (take (Z.to_nat limit' - Z.to_nat limit) (drop (Z.to_nat limit) l)).
  rewrite take_take_drop. f_equal. lia.
Qed.

Lemma filter_armor_vector_limit_prefix_witness :
  0 <= 1 <= 3 /\ 3 <= INT_MAX
  /\ exists rest,
       filter_armor_vector [rags; helmet; shield; boots] 0 5 3
       = filter_armor_vector [rags; helmet; shield; boots] 0 5 1 ++ rest.
Proof.
  assert (Hle : 0 <= 1 <= 3) by lia.
  assert (Hmax : 3 <= INT_MAX) by (unfold INT_MAX; lia).
  split; [exact Hle|]. split; [exact Hmax|].
  apply (filter_armor_vector_limit_prefix _ 0 5 1 3 Hle Hmax).
Defined.

(** ** When the sums are defined *)

Lemma sum_loop_undefined (l : list ArmorItem) :
  fold_left
    (fun acc armor =>
       '(total_cost, total_defense) ← acc;
       total_cost' ← int_add total_cost (cost armor);
       Ok (total_cost', (total_defense + defense armor)%Q))
    l UndefinedBehaviour = UndefinedBehaviour.
Proof. induction l as [|a l IH]; simpl; [reflexivity|exact IH]. Qed.

Lemma sum_loop_overflow (l : list ArmorItem) (c0 : Z) (d0 : Q) :
  Forall (fun a => 0 < cost a) l ->
  0 <= c0 <= INT_MAX -> INT_MAX < c0 + total_cost l ->
  fold_left
    (fun acc armor =>
       '(total_cost, total_defense) ← acc;
       total_cost' ← int_add total_cost (cost armor);
       Ok (total_cost', (total_defense + defense armor)%Q))
    l (Ok (c0, d0)) = UndefinedBehaviour.
Proof.
  intros Hall. revert c0 d0.
  induction Hall as [|a l Ha Hall IH]; intros c0 d0 Hc0 Hsum.
  - unfold total_cost in Hsum. simpl in Hsum. lia.
  - rewrite total_cost_cons in Hsum. simpl. unfold int_add.
    destruct (in_int (c0 + cost a)) eqn:Hin; simpl.
    + apply in_int_iff in Hin. apply IH; lia.
    + apply sum_loop_undefined.
Qed.

Lemma sum_armor_vector_overflow (l : list ArmorItem) :
  Forall (fun a => 0 < cost a) l ->
  INT_MAX < total_cost l ->
  sum_armor_vector l = UndefinedBehaviour.
Proof.
  intros Hall Hsum. apply sum_loop_overflow; trivial; unfold INT_MAX in *; lia.
Qed.

(** X5: on items of positive cost, [sum_armor_vector] gives the sum of the
    costs and the defenses added one after the other, as doubles, in the
    order of the vector, when the costs add up to at most [INT_MAX]; it is
    undefined (the [int] total overflows) as soon as they add up to more. *)
Theorem sum_armor_vector_defined_iff (fadd : Q -> Q -> Q) (l : list ArmorItem) :
  Forall (fun a => 0 < cost a) l ->
  (total_cost l <= INT_MAX ->
   Rounded.sum_armor_vector fadd l
   = Ok (total_cost l, fold_left (fun d a => fadd d (defense a)) l 0%Q))
  /\ (INT_MAX < total_cost l ->
      Rounded.sum_armor_vector fadd l = UndefinedBehaviour).
Proof.
  intros Hall. split; intros Hsum.
  - now apply rounded_sum_armor_vector_total.
  - now apply rounded_sum_armor_vector_overflow.
Qed.

Lemma sum_armor_vector_defined_iff_witness :
  Forall (fun a => 0 < cost a) [plate; mail]
  /\ Rounded.sum_armor_vector binary64_add [plate; mail] = UndefinedBehaviour
  /\ Forall (fun a => 0 < cost a) [aegis; charm]
  /\ Rounded.sum_armor_vector binary64_add [aegis; charm] = Ok (2, inject_Z (2 ^ 53)).
Proof.
  assert (H1 : Forall (fun a => 0 < cost a) [plate; mail]) by (repeat constructor).
  assert (H2 : Forall (fun a => 0 < cost a) [aegis; charm]) by (repeat constructor).
  split; [exact H1|]. split.
  - apply (sum_armor_vector_defined_iff binary64_add _ H1). vm_compute. reflexivity.
  - split; [exact H2|].
    rewrite (proj1 (sum_armor_vector_defined_iff binary64_add _ H2));
      [vm_compute; reflexivity|].
    vm_compute. discriminate.
Defined.

(** ** The constructor of ArmorItem *)

Lemma size_t_to_int_range (z : Z) : INT_MIN <= size_t_to_int z <= INT_MAX.
Proof.
  unfold size_t_to_int, INT_MIN, INT_MAX.
  pose proof (Z.mod_pos_bound (z + 2 ^ 31) (2 ^ 32) ltac:(lia)). lia.
Qed.

Lemma size_t_to_int_small (z : Z) : INT_MIN <= z <= INT_MAX -> size_t_to_int z = z.
Proof.
  unfold size_t_to_int, INT_MIN, INT_MAX. intros Hz.
  rewrite Z.mod_small by lia. lia.
Qed.

(** X6: the constructor accepts a non-empty description and a cost that is
    not zero; the item then holds the description and the defense as given,
    a cost within [int] that is the given cost modulo [2^32], and the given
    cost itself when that is at most [INT_MAX]. *)
Theorem new_ArmorItem_accepts (d : string) (cost_gold : Z) (defense_points : Q) :
  d <> ""%string ->
  0 < cost_gold ->
  exists a,
    new_ArmorItem d cost_gold defense_points = Ok a
    /\ description a = d
    /\ defense a = defense_points
    /\ INT_MIN <= cost a <= INT_MAX
    /\ (cost a - cost_gold) mod 2 ^ 32 = 0
    /\ (cost_gold <= INT_MAX -> cost a = cost_gold).
Proof.
  intros Hd Hc. unfold new_ArmorItem.
  replace (String.eqb d "") with false
    by (symmetry; now apply String.eqb_neq).
  replace (cost_gold >? 0) with true by (symmetry; apply Z.gtb_lt; lia).
  simpl. eexists. split; [reflexivity|]. simpl.
  split; [reflexivity|]. split; [reflexivity|].
  split; [apply size_t_to_int_range|]. split.
  - unfold size_t_to_int.
    rewrite (Z.mod_eq (cost_gold + 2 ^ 31) (2 ^ 32)) by lia.
    replace (cost_gold + 2 ^ 31 - 2 ^ 32 * ((cost_gold + 2 ^ 31) / 2 ^ 32)
             - 2 ^ 31 - cost_gold)
      with (- ((cost_gold + 2 ^ 31) / 2 ^ 32) * 2 ^ 32) by lia.
    apply Z.mod_mul. lia.
  - intros Hmax. apply size_t_to_int_small. unfold INT_MIN. lia.
Qed.

Lemma new_ArmorItem_accepts_witness :
  "helmet"%string <> ""%string /\ 0 < 3
  /\ new_ArmorItem "helmet" 3 4 = Ok helmet.
Proof.
  assert (Hd : "helmet"%string <> ""%string) by discriminate.
  assert (Hc : 0 < 3) by lia.
  split; [exact Hd|]. split; [exact Hc|].
  destruct (new_ArmorItem_accepts "helmet" 3 4 Hd Hc) as (a & Ha & _).
  rewrite Ha. vm_compute in Ha. exact (eq_sym Ha).
Defined.

(** X7: the constructor stops on an assertion exactly when the description
    is empty or the cost is zero; an accepted item has a positive [cost()]
    exactly when the given cost, modulo [2^32], lies strictly between 0 and
    [2^31]: the assertion alone does not make [cost()] positive. *)
Theorem new_ArmorItem_cost_positive_iff (d : string) (cost_gold : Z)
    (defense_points : Q) :
  0 <= cost_gold < 2 ^ 64 ->
  (new_ArmorItem d cost_gold defense_points = AssertionFailure
   <-> d = ""%string \/ cost_gold = 0)
  /\ forall a, new_ArmorItem d cost_gold defense_points = Ok a ->
       (0 < cost a <-> 0 < cost_gold mod 2 ^ 32 < 2 ^ 31).
Proof.
  intros Hrange. unfold new_ArmorItem.
  destruct (String.eqb_spec d "") as [->|Hd].
  { split; [split; [now left|reflexivity]|discriminate]. }
  destruct (Z.gtb_spec cost_gold 0) as [Hpos|Hzero]; simpl.
  - split; [split; [discriminate|intros [?|?]; [contradiction|lia]]|].
    intros a [= <-]. simpl. unfold size_t_to_int.
    pose proof (Z.mod_pos_bound cost_gold (2 ^ 32) ltac:(lia)) as Hm.
    pose proof (Z.div_mod cost_gold (2 ^ 32) ltac:(lia)) as Hdiv.
    destruct (Z.lt_ge_cases (cost_gold mod 2 ^ 32) (2 ^ 31)) as [Hlo|Hhi].
    + replace ((cost_gold + 2 ^ 31) mod 2 ^ 32)
        with (cost_gold mod 2 ^ 32 + 2 ^ 31); [lia|].
      apply (Zmod_unique _ _ (cost_gold / 2 ^ 32)); lia.
    + replace ((cost_gold + 2 ^ 31) mod 2 ^ 32)
        with (cost_gold mod 2 ^ 32 - 2 ^ 31); [lia|].
      apply (Zmod_unique _ _ (cost_gold / 2 ^ 32 + 1)); lia.
  - split; [split; [intros _; right; lia|reflexivity]|discriminate].
Qed.

Lemma new_ArmorItem_cost_positive_iff_witness :
  0 <= 2 ^ 32 < 2 ^ 64
  /\ new_ArmorItem "ghost" (2 ^ 32) 1 = Ok (mkArmorItem "ghost" 0 1)
  /\ ~ 0 < cost (mkArmorItem "ghost" 0 1).
Proof.
  assert (Hrange : 0 <= 2 ^ 32 < 2 ^ 64) by lia.
  split; [exact Hrange|]. split; [reflexivity|].
  destruct (new_ArmorItem_cost_positive_iff "ghost" (2 ^ 32) 1 Hrange) as [_ H].
  intros Hpos. apply (H (mkArmorItem "ghost" 0 1) eq_refl) in Hpos.
  vm_compute in Hpos. destruct Hpos as [Hpos _]. discriminate.
Defined.


(** ** The table and the choice of the dynamic solver *)




(** X8: on items of positive cost and a budget that is not negative, the
    table of the dynamic solver has one row more than there are items and
    one column more than the budget; row 0 and column 0 hold 0 and no cell
    is negative: the sentinel -999999 of the first loops never survives. *)
Theorem build_table_no_sentinel (armors : list ArmorItem) (total_cost_arg : Z) :
  Forall (fun a => 0 < cost a) armors ->
  0 <= total_cost_arg ->
  length (build_table armors total_cost_arg) = S (length armors)
  /\ forall i j, (i <= length armors)%nat -> (j <= Z.to_nat total_cost_arg)%nat ->
       length (nth i (build_table armors total_cost_arg) [])
       = S (Z.to_nat total_cost_arg)
       /\ (0 <= rd (build_table armors total_cost_arg) i j)%Q
       /\ rd (build_table armors total_cost_arg) 0 j = 0%Q
       /\ rd (build_table armors total_cost_arg) i 0 = 0%Q.
Proof.
  intros Hpos Hbudget.
  destruct (build_table_spec armors total_cost_arg Hpos Hbudget)
    as [[Hrows Hcols] Hrd].
  split; [exact Hrows|]. intros i j Hi Hj.
  split; [now apply Hcols|]. rewrite !Hrd by lia.
  split; [apply cell_nonneg|]. split; [reflexivity|].
  now apply cell_column_0.
Qed.

Lemma build_table_no_sentinel_witness :
  Forall (fun a => 0 < cost a) [helmet; shield; boots] /\ 0 <= 5
  /\ length (build_table [helmet; shield; boots] 5) = 4%nat
  /\ (0 <= rd (build_table [helmet; shield; boots] 5) 3 5)%Q.
Proof.
  assert (Hpos : Forall (fun a => 0 < cost a) [helmet; shield; boots])
    by (repeat constructor).
  assert (Hbudget : 0 <= 5) by lia.
  split; [exact Hpos|]. split; [exact Hbudget|].
  destruct (build_table_no_sentinel [helmet; shield; boots] 5 Hpos Hbudget)
    as [Hrows Hcells].
  split; [exact Hrows|].
  apply (Hcells 3%nat 5%nat); simpl; lia.
Defined.



(** X10: the recurrence the second pair of loops leaves in the table,
    whatever the addition of doubles: past row 0, a cell whose column is
    strictly greater than the cost of the item of its row holds the larger
    of the cell above and of the sum, as doubles, of the cell above, [cost]
    columns to the left, and of the defense of the item; any other cell
    repeats the cell above. *)
Theorem build_table_recurrence (fadd : Q -> Q -> Q) (armors : list ArmorItem)
    (total_cost_arg : Z) (i j : nat) (a : ArmorItem) :
  Forall (fun a => 0 < cost a) armors ->
  0 <= total_cost_arg ->
  (j <= Z.to_nat total_cost_arg)%nat ->
  armors !! i = Some a ->
  rd (Rounded.build_table fadd armors total_cost_arg) (S i) j
  = if cost a <? Z.of_nat j
    then max (rd (Rounded.build_table fadd armors total_cost_arg) i j)
             (fadd (rd (Rounded.build_table fadd armors total_cost_arg) i
                      (Z.to_nat (Z.of_nat j - cost a)))
                   (defense a))
    else rd (Rounded.build_table fadd armors total_cost_arg) i j.
Proof.
  intros Hpos Hbudget Hj Ha.
  destruct (rounded_build_table_spec fadd armors total_cost_arg Hpos Hbudget)
    as [_ Hrd].
  pose proof (lookup_lt_Some _ _ _ Ha) as Hi.
  pose proof (Forall_lookup_1 _ _ _ _ Hpos Ha) as Hc. simpl in Hc.
  rewrite !Hrd by lia. simpl. rewrite Ha.
  destruct (Z.ltb_spec (cost a) (Z.of_nat j)) as [Hlt|Hge].
  - now replace (Z.of_nat j - cost a >? 0) with true
      by (symmetry; apply Z.gtb_lt; lia).
  - replace (Z.of_nat j - cost a >? 0) with false; [reflexivity|].
    symmetry. rewrite Z.gtb_ltb. apply Z.ltb_ge. lia.
Qed.

Lemma build_table_recurrence_witness :
  Forall (fun a => 0 < cost a) [aegis; charm] /\ 0 <= 3
  /\ rd (Rounded.build_table binary64_add [aegis; charm] 3) 2 3
     = max (inject_Z (2 ^ 53)) (binary64_add (inject_Z (2 ^ 53)) 1)
  /\ rd (Rounded.build_table binary64_add [aegis; charm] 3) 2 3 = inject_Z (2 ^ 53).
Proof.
  assert (Hpos : Forall (fun a => 0 < cost a) [aegis; charm])
    by (repeat constructor).
  assert (Hbudget : 0 <= 3) by lia.
  split; [exact Hpos|]. split; [exact Hbudget|]. split.
  - rewrite (build_table_recurrence binary64_add [aegis; charm] 3 1 3 charm
               Hpos Hbudget); [vm_compute; reflexivity|simpl; lia|reflexivity].
  - rewrite (build_table_recurrence binary64_add [aegis; charm] 3 1 3 charm
               Hpos Hbudget); [vm_compute; reflexivity|simpl; lia|reflexivity].
Defined.

(** X11: the last cell of the table of the dynamic solver, [T[n][budget]],
    is the sum of the defenses of the items it returns, added as doubles in
    the order of the catalog, which is the reverse of the order in which it
    returns them. *)
Theorem dynamic_max_defense_value (fadd : Q -> Q -> Q) (armors : list ArmorItem)
    (total_cost_arg : Z) :
  Forall (fun a => 0 < cost a) armors ->
  0 <= total_cost_arg ->
  fold_left (fun d a => fadd d (defense a))
    (rev (Rounded.dynamic_max_defense fadd armors total_cost_arg)) 0%Q
  = rd (Rounded.build_table fadd armors total_cost_arg) (length armors)
      (Z.to_nat total_cost_arg).
Proof.
  intros Hpos Hbudget.
  destruct (rounded_build_table_spec fadd armors total_cost_arg Hpos Hbudget)
    as [_ Hrd].
  rewrite Hrd by lia.
  now apply rounded_dynamic_max_defense_cell.
Qed.

Lemma dynamic_max_defense_value_witness :
  Forall (fun a => 0 < cost a) [cuirass; greaves; gloves; cap] /\ 0 <= 4
  /\ Rounded.dynamic_max_defense binary64_add [cuirass; greaves; gloves; cap] 4
     = [cap; gloves; greaves]
  /\ binary64_add (binary64_add (binary64_add 0 (defense greaves)) (defense gloves))
       (defense cap)
     = rd (Rounded.build_table binary64_add [cuirass; greaves; gloves; cap] 4) 4 4.
Proof.
  assert (Hpos : Forall (fun a => 0 < cost a) [cuirass; greaves; gloves; cap])
    by (repeat constructor).
  assert (Hbudget : 0 <= 4) by lia.
  split; [exact Hpos|]. split; [exact Hbudget|].
  split; [vm_compute; reflexivity|].
  exact (dynamic_max_defense_value binary64_add [cuirass; greaves; gloves; cap] 4
           Hpos Hbudget).
Defined.




(** X13: on a budget that is strictly positive the dynamic solver leaves at
    least one piece of gold unspent: its table only takes an item whose cost
    is strictly below the column. *)
Theorem dynamic_max_defense_leaves_gold (armors : list ArmorItem) (total_cost_arg : Z) :
  Forall (fun a => 0 < cost a) armors ->
  0 < total_cost_arg ->
  total_cost (dynamic_max_defense armors total_cost_arg) <= total_cost_arg - 1.
Proof.
  intros Hpos Hbudget.
  pose proof (dynamic_max_defense_below_budget armors total_cost_arg Hpos Hbudget).
  lia.
Qed.

Lemma dynamic_max_defense_leaves_gold_witness :
  Forall (fun a => 0 < cost a) [helmet; shield; boots] /\ 0 < 5
  /\ total_cost (dynamic_max_defense [helmet; shield; boots] 5) <= 4.
Proof.
  assert (Hpos : Forall (fun a => 0 < cost a) [helmet; shield; boots])
    by (repeat constructor).
  assert (Hbudget : 0 < 5) by lia.
  split; [exact Hpos|]. split; [exact Hbudget|].
  apply (dynamic_max_defense_leaves_gold [helmet; shield; boots] 5 Hpos Hbudget).
Defined.

(** ** Masks and selections *)

Lemma select_sublist (m : Z) (j : nat) (l : list ArmorItem) :
  select m j l `sublist_of` l.
Proof.
  revert j. induction l as [|a l IH]; intros j; simpl; [constructor|].
  destruct (Z.testbit m (Z.of_nat j)); constructor; apply IH.
Qed.

Lemma select_shift (m : Z) (b : bool) (j : nat) (l : list ArmorItem) :
  select (2 * m + Z.b2z b) (S j) l = select m j l.
Proof.
  revert j. induction l as [|a l IH]; intros j; cbn [select]; [reflexivity|].
  rewrite Nat2Z.inj_succ, Z.testbit_succ_r by lia.
  rewrite (IH (S j)). reflexivity.
Qed.

(** Every selection of the catalog is the subset of a mask below [2^n]. *)
Lemma sublist_select (l k : list ArmorItem) :
  l `sublist_of` k ->
  exists m, 0 <= m < 2 ^ Z.of_nat (length k) /\ select m 0 k = l.
Proof.
  induction 1 as [|x l k _ (m & Hm & Hsel)|x l k _ (m & Hm & Hsel)].
  - exists 0. split; [simpl; lia|reflexivity].
  - exists (2 * m + Z.b2z true). split.
    + simpl length. rewrite Nat2Z.inj_succ, Z.pow_succ_r by lia. simpl. lia.
    + cbn [select]. change (Z.of_nat 0) with 0. rewrite Z.testbit_0_r.
      now rewrite select_shift, Hsel.
  - exists (2 * m + Z.b2z false). split.
    + simpl length. rewrite Nat2Z.inj_succ, Z.pow_succ_r by lia. simpl. lia.
    + cbn [select]. change (Z.of_nat 0) with 0. rewrite Z.testbit_0_r.
      now rewrite select_shift, Hsel.
Qed.

Lemma select_all (m : Z) (j : nat) (l : list ArmorItem) :
  (forall i, (j <= i < j + length l)%nat -> Z.testbit m (Z.of_nat i) = true) ->
  select m j l = l.
Proof.
  revert j. induction l as [|a l IH]; intros j Hbits; simpl; [reflexivity|].
  rewrite Hbits by (simpl; lia). f_equal. apply IH.
  intros i Hi. apply Hbits. simpl. lia.
Qed.

Lemma total_defense_from (l : list ArmorItem) (d : Q) :
  (fold_left (fun d a => d + defense a) l d == d + total_defense l)%Q.
Proof.
  unfold total_defense. revert d. induction l as [|a l IH]; intros d; simpl.
  - lra.
  - rewrite (IH (d + defense a)%Q), (IH (0 + defense a)%Q). lra.
Qed.

Lemma total_defense_cons (a : ArmorItem) (l : list ArmorItem) :
  (total_defense (a :: l) == defense a + total_defense l)%Q.
Proof.
  unfold total_defense at 1. simpl. rewrite total_defense_from. lra.
Qed.

(** ** The exhaustive solver over selections *)

Lemma rounded_exhaustive_returns_best_selection (fadd : Q -> Q -> Q)
    (armors : list ArmorItem) (budget : Q) (r : list ArmorItem) :
  Rounded.exhaustive_max_defense fadd armors budget = Ok r ->
  r `sublist_of` armors
  /\ (forall l, l `sublist_of` armors ->
                (inject_Z (total_cost l) <= budget)%Q ->
                (Rounded.total_defense fadd l <= Rounded.total_defense fadd r)%Q)
  /\ ((0 <= budget)%Q -> (inject_Z (total_cost r) <= budget)%Q).
Proof.
  intros Hr.
  destruct (rounded_exhaustive_returns fadd armors budget r Hr)
    as (_ & m & -> & Hm & _ & Hbest).
  split; [|split].
  - rewrite subset_of_select. apply select_sublist.
  - intros l Hsub Hcost.
    destruct (sublist_select l armors Hsub) as (m' & Hm' & Hsel).
    rewrite <- subset_of_select in Hsel.
    destruct (Hbest m' Hm') as [Hle _]; [|now rewrite Hsel in Hle].
    unfold feasible. now rewrite Hsel.
  - intros Hbudget. destruct Hm as [->|[_ Hf]]; [|exact Hf].
    now rewrite subset_of_0.
Qed.

(** X15: what the exhaustive solver returns is a selection of the catalog in
    the order of the catalog, and no selection of the catalog that costs at
    most the budget has a greater total defense, the defenses of a selection
    being added as doubles in its order, as [sum_armor_vector] adds them;
    under a budget that is not negative it costs at most the budget. *)
Theorem exhaustive_max_defense_optimal (fadd : Q -> Q -> Q)
    (armors : list ArmorItem) (budget : Q) (r : list ArmorItem) :
  Rounded.exhaustive_max_defense fadd armors budget = Ok r ->
  r `sublist_of` armors
  /\ (forall l, l `sublist_of` armors ->
                (inject_Z (total_cost l) <= budget)%Q ->
                (fold_left (fun d a => fadd d (defense a)) l 0
                 <= fold_left (fun d a => fadd d (defense a)) r 0)%Q)
  /\ ((0 <= budget)%Q -> (inject_Z (total_cost r) <= budget)%Q).
Proof. apply rounded_exhaustive_returns_best_selection. Qed.

Lemma exhaustive_max_defense_optimal_witness :
  Rounded.exhaustive_max_defense binary64_add [aegis; charm] 2 = Ok [aegis]
  /\ [aegis] `sublist_of` [aegis; charm]
  /\ (binary64_add (binary64_add 0 (defense aegis)) (defense charm)
      <= binary64_add 0 (defense aegis))%Q.
Proof.
  assert (Hr : Rounded.exhaustive_max_defense binary64_add [aegis; charm] 2
               = Ok [aegis]) by (vm_compute; reflexivity).
  split; [exact Hr|].
  destruct (exhaustive_max_defense_optimal binary64_add [aegis; charm] 2
              [aegis] Hr) as (Hsub & Hbest & _).
  split; [exact Hsub|].
  apply (Hbest [aegis; charm]); [repeat constructor|vm_compute; discriminate].
Defined.

(** X17: under a budget that is negative the exhaustive solver returns the
    empty vector, whatever the items of positive cost. *)
Theorem exhaustive_max_defense_negative_budget (armors : list ArmorItem)
    (budget : Q) (r : list ArmorItem) :
  Forall (fun a => 0 < cost a) armors ->
  (budget < 0)%Q ->
  exhaustive_max_defense armors budget = Ok r ->
  r = [].
Proof.
  intros Hpos Hneg Hr.
  destruct (exhaustive_returns armors budget r Hr) as (_ & m & -> & Hm & _).
  destruct Hm as [->|[_ Hf]]; [apply subset_of_0|].
  destruct (subset_of_within armors m Hpos) as [Hc _].
  pose proof (total_cost_nonneg _ Hc) as Hge.
  unfold feasible in Hf. rewrite Zle_Qle in Hge.
  change (inject_Z 0) with 0%Q in Hge. exfalso. lra.
Qed.

Lemma exhaustive_max_defense_negative_budget_witness :
  Forall (fun a => 0 < cost a) [helmet; shield; boots] /\ (-1 < 0)%Q
  /\ exhaustive_max_defense [helmet; shield; boots] (-1) = Ok [].
Proof.
  assert (Hpos : Forall (fun a => 0 < cost a) [helmet; shield; boots])
    by (repeat constructor).
  assert (Hneg : (-1 < 0)%Q) by reflexivity.
  split; [exact Hpos|]. split; [exact Hneg|].
  destruct (exhaustive_max_defense [helmet; shield; boots] (-1))
    as [r| |] eqn:Hr; try discriminate.
  f_equal.
  exact (exhaustive_max_defense_negative_budget _ _ r Hpos Hneg Hr).
Defined.

Lemma total_defense_nonpositive (l : list ArmorItem) :
  Forall (fun a => (defense a <= 0)%Q) l -> (total_defense l <= 0)%Q.
Proof.
  induction 1 as [|a l Ha _ IH]; [apply Qle_refl|].
  rewrite total_defense_cons. lra.
Qed.

(** When no item of the catalog has a strictly positive defense, the
    exhaustive solver returns the empty vector, whatever the budget: a
    candidate only replaces the best so far by a strictly greater defense. *)
Theorem exhaustive_max_defense_no_positive_defense (armors : list ArmorItem)
    (budget : Q) (r : list ArmorItem) :
  Forall (fun a => 0 < cost a) armors ->
  Forall (fun a => (defense a <= 0)%Q) armors ->
  exhaustive_max_defense armors budget = Ok r ->
  r = [].
Proof.
  intros Hpos Hdef Hr.
  destruct (exhaustive_returns armors budget r Hr)
    as (_ & m & -> & Hm & Hge & Hbest).
  destruct Hm as [->|[Hrange Hf]]; [apply subset_of_0|].
  assert (Hle : (total_defense (subset_of armors m) <= 0)%Q).
  { apply total_defense_nonpositive.
    eapply Forall_sublist_of; [|exact Hdef].
    rewrite subset_of_select. apply select_sublist. }
  destruct (Hbest 0 ltac:(lia)) as [_ Htie].
  - unfold feasible in *. rewrite subset_of_0.
    destruct (subset_of_within armors m Hpos) as [Hc _].
    pose proof (total_cost_nonneg _ Hc) as Hcost.
    rewrite Zle_Qle in Hcost. change (inject_Z 0) with 0%Q in Hcost.
    change (inject_Z (total_cost [])) with 0%Q. lra.
  - rewrite subset_of_0 in Htie.
    assert (m <= 0); [|lia].
    apply Htie. change (total_defense []) with 0%Q. lra.
Qed.

Lemma exhaustive_max_defense_no_positive_defense_witness :
  Forall (fun a => 0 < cost a) [rags; mkArmorItem "cloak" 2 0]
  /\ Forall (fun a => (defense a <= 0)%Q) [rags; mkArmorItem "cloak" 2 0]
  /\ exhaustive_max_defense [rags; mkArmorItem "cloak" 2 0] 9 = Ok [].
Proof.
  assert (Hpos : Forall (fun a => 0 < cost a) [rags; mkArmorItem "cloak" 2 0])
    by (repeat constructor).
  assert (Hdef : Forall (fun a => (defense a <= 0)%Q)
                   [rags; mkArmorItem "cloak" 2 0])
    by (repeat constructor; vm_compute; discriminate).
  split; [exact Hpos|]. split; [exact Hdef|].
  destruct (exhaustive_max_defense [rags; mkArmorItem "cloak" 2 0] 9)
    as [r| |] eqn:Hr; try discriminate.
  f_equal.
  exact (exhaustive_max_defense_no_positive_defense _ _ r Hpos Hdef Hr).
Defined.

(** ** When the exhaustive solver returns *)

Lemma subset_of_full (armors : list ArmorItem) :
  subset_of armors (2 ^ Z.of_nat (length armors) - 1) = armors.
Proof.
  rewrite subset_of_select. apply select_all. intros i Hi.
  replace (2 ^ Z.of_nat (length armors) - 1)
    with (Z.ones (Z.of_nat (length armors)))
    by (rewrite Z.ones_equiv; lia).
  apply Z.ones_spec_low. lia.
Qed.

Lemma sum_armor_vector_no_assertion (l : list ArmorItem) :
  sum_armor_vector l <> AssertionFailure.
Proof.
  unfold sum_armor_vector.
  assert (H : forall acc : outcome (Z * Q), acc <> AssertionFailure ->
            fold_left
              (fun acc armor =>
                 '(total_cost, total_defense) ← acc;
                 total_cost' ← int_add total_cost (cost armor);
                 Ok (total_cost', (total_defense + defense armor)%Q))
              l acc <> AssertionFailure).
  { induction l as [|a l IH]; intros acc Hacc; simpl; [exact Hacc|].
    apply IH. destruct acc as [[c d]| |]; simpl; try congruence.
    unfold int_add. destruct (in_int (c + cost a)); simpl; discriminate. }
  apply H. discriminate.
Qed.

Lemma for_masks_no_assertion (N : nat)
    (body : Z -> list ArmorItem * Q -> outcome (list ArmorItem * Q))
    (st : list ArmorItem * Q) :
  (forall k s, body k s <> AssertionFailure) ->
  for_masks (Z.of_nat N) body st <> AssertionFailure.
Proof.
  intros Hbody. induction N as [|N IH]; [discriminate|].
  rewrite for_masks_succ.
  destruct (for_masks (Z.of_nat N) body st) as [s| |]; simpl;
    [apply Hbody|congruence|discriminate].
Qed.

Lemma exhaustive_step_no_assertion (armors : list ArmorItem) (n : nat)
    (budget : Q) (k : Z) (s : list ArmorItem * Q) :
  exhaustive_step armors n budget k s <> AssertionFailure.
Proof.
  unfold exhaustive_step. destruct s as [bestset bestdefense].
  pose proof (sum_armor_vector_no_assertion (candidate_of armors n k)) as Hsum.
  destruct (sum_armor_vector (candidate_of armors n k)) as [[c d]| |];
    [|congruence|discriminate].
  rewrite bind_Ok. destruct (Qlt_bool _ _ && Qle_bool _ _); discriminate.
Qed.

(** X18: on items of positive cost the exhaustive solver stops on its
    assertion exactly from 64 items on, returns a vector exactly when there
    are at most 30 items whose costs add up to at most [INT_MAX], and is
    undefined in between: from 31 to 63 items, or when the costs add up to
    more than an [int] holds. *)
Theorem exhaustive_max_defense_domain (armors : list ArmorItem) (budget : Q) :
  Forall (fun a => 0 < cost a) armors ->
  (exhaustive_max_defense armors budget = AssertionFailure
   <-> (64 <= length armors)%nat)
  /\ ((exists r, exhaustive_max_defense armors budget = Ok r)
      <-> (length armors <= 30)%nat /\ total_cost armors <= INT_MAX)
  /\ (exhaustive_max_defense armors budget = UndefinedBehaviour
      <-> (length armors < 64)%nat
          /\ ((30 < length armors)%nat \/ INT_MAX < total_cost armors)).
Proof.
  intros Hpos.
  assert (Hassert : exhaustive_max_defense armors budget = AssertionFailure
                    <-> (64 <= length armors)%nat).
  { unfold exhaustive_max_defense.
    destruct (Nat.ltb_spec (length armors) 64) as [Hlt|Hge]; simpl.
    - split; [|lia]. intros H. exfalso. revert H. unfold double_to_int.
      destruct (in_int (2 ^ Z.of_nat (length armors))); simpl; [|discriminate].
      pose proof (for_masks_no_assertion
                    (Z.to_nat (2 ^ Z.of_nat (length armors)))
                    (exhaustive_step armors (length armors) budget) ([], 0%Q)
                    (exhaustive_step_no_assertion armors (length armors) budget))
        as Hloop.
      rewrite Z2Nat.id in Hloop by (apply Z.pow_nonneg; lia).
      destruct (for_masks _ _ _); simpl; congruence.
    - split; [intros _; exact Hge|reflexivity]. }
  assert (Hok : (exists r, exhaustive_max_defense armors budget = Ok r)
                <-> (length armors <= 30)%nat /\ total_cost armors <= INT_MAX).
  { split.
    - intros [r Hr].
      destruct (exhaustive_returns armors budget r Hr) as [Hn _].
      split; [exact Hn|].
      destruct (Z.le_gt_cases (total_cost armors) INT_MAX) as [|Hover];
        [assumption|exfalso].
      revert Hr. unfold exhaustive_max_defense.
      destruct (negb (length armors <? 64)%nat); [discriminate|].
      unfold double_to_int.
      destruct (in_int (2 ^ Z.of_nat (length armors))); [|discriminate].
      rewrite bind_Ok.
      assert (Hpow : 0 < 2 ^ Z.of_nat (length armors))
        by (apply Z.pow_pos_nonneg; lia).
      replace (2 ^ Z.of_nat (length armors))
        with (Z.of_nat (S (Z.to_nat (2 ^ Z.of_nat (length armors) - 1))))
        by lia.
      rewrite for_masks_succ.
      destruct (for_masks _ _ _) as [[bestset bestdefense]| |];
        try discriminate.
      rewrite bind_Ok. unfold exhaustive_step.
      rewrite Z2Nat.id by lia.
      change (candidate_of armors (length armors)
                (2 ^ Z.of_nat (length armors) - 1))
        with (subset_of armors (2 ^ Z.of_nat (length armors) - 1)).
      rewrite subset_of_full.
      rewrite (sum_armor_vector_overflow armors Hpos Hover).
      discriminate.
    - intros [Hn Hsum]. now apply exhaustive_total. }
  split; [exact Hassert|]. split; [exact Hok|].
  destruct (exhaustive_max_defense armors budget) as [r| |] eqn:Hr.
  - split; [discriminate|]. intros [_ Hbad].
    destruct (proj1 Hok (ex_intro _ r eq_refl)) as [Hn Hsum]. lia.
  - split; [discriminate|]. intros [Hlt _].
    pose proof (proj1 Hassert eq_refl). lia.
  - split; [|reflexivity]. intros _. split.
    + destruct (Nat.lt_ge_cases (length armors) 64) as [|Hge]; [assumption|].
      pose proof (proj2 Hassert Hge). discriminate.
    + destruct (Nat.le_gt_cases (length armors) 30) as [Hn|]; [|now left].
      destruct (Z.le_gt_cases (total_cost armors) INT_MAX) as [Hsum|];
        [|now right].
      destruct (proj2 Hok (conj Hn Hsum)) as [r Hr']. discriminate.
Qed.

Lemma exhaustive_max_defense_domain_witness :
  Forall (fun a => 0 < cost a) (repeat ring 40)
  /\ exhaustive_max_defense (repeat ring 40) 3 = UndefinedBehaviour
  /\ ~ exists r, exhaustive_max_defense (repeat ring 40) 3 = Ok r.
Proof.
  assert (Hpos : Forall (fun a => 0 < cost a) (repeat ring 40))
    by (repeat constructor).
  split; [exact Hpos|].
  destruct (exhaustive_max_defense_domain (repeat ring 40) 3 Hpos)
    as (_ & Hok & Hub).
  split.
  - apply Hub. simpl. split; [lia|left; lia].
  - intros Hr. apply Hok in Hr. simpl in Hr. lia.
Defined.


(** ** print_2d_cache *)

(** X20: the table of the dynamic solver for at least one item is printed in
    full, one line of [budget + 1] numbers for each of its rows, when there
    are fewer than 250 items and the budget is below 250, and replaced by
    "[too large]" otherwise. *)
Theorem print_2d_cache_table (armors : list ArmorItem) (budget : Z) :
  Forall (fun a => 0 < cost a) armors ->
  0 <= budget ->
  (1 <= length armors)%nat ->
  print_2d_cache (build_table armors budget)
  = if (length armors <? 250)%nat && (budget <? 250)
    then Ok (cache_title
             ++ concat (map (fun row => map Number row ++ [Endl])
                          (build_table armors budget)))
    else Ok (cache_title ++ cache_too_large).
Proof.
  intros Hpos Hbudget Hn.
  destruct (build_table_spec armors budget Hpos Hbudget) as [[Hrows Hcols] _].
  unfold print_2d_cache. rewrite Hrows.
  destruct (lookup_lt_is_Some_2 (build_table armors budget) 1) as [row1 Hrow1];
    [lia|].
  pose proof (Hcols 1%nat Hn) as Hlen.
  rewrite nth_lookup, Hrow1 in Hlen. simpl in Hlen.
  rewrite Hrow1, Hlen. cbn [Nat.eqb].
  destruct (Nat.ltb_spec (length armors) 250) as [Hsmall|Hbig].
  - replace (250 <? S (length armors))%nat with false
      by (symmetry; apply Nat.ltb_ge; lia).
    destruct (Z.ltb_spec budget 250) as [Hlow|Hhigh]; simpl.
    + now replace (250 <? S (Z.to_nat budget))%nat with false
        by (symmetry; apply Nat.ltb_ge; lia).
    + now replace (250 <? S (Z.to_nat budget))%nat with true
        by (symmetry; apply Nat.ltb_lt; lia).
  - now replace (250 <? S (length armors))%nat with true
      by (symmetry; apply Nat.ltb_lt; lia).
Qed.

Lemma print_2d_cache_table_witness :
  Forall (fun a => 0 < cost a) [helmet] /\ 0 <= 1
  /\ (1 <= length [helmet])%nat
  /\ print_2d_cache (build_table [helmet] 1)
     = Ok (cache_title
           ++ [Number 0; Number 0; Endl; Number 0; Number 0; Endl]).
Proof.
  assert (Hpos : Forall (fun a => 0 < cost a) [helmet]) by (repeat constructor).
  assert (Hbudget : 0 <= 1) by lia.
  assert (Hn : (1 <= length [helmet])%nat) by (simpl; lia).
  split; [exact Hpos|]. split; [exact Hbudget|]. split; [exact Hn|].
  rewrite (print_2d_cache_table [helmet] 1 Hpos Hbudget Hn). reflexivity.
Defined.

(** ** Reading lines and fields *)

Lemma getline_from_spec (delim c : ascii) (s : string) :
  contains delim (fst (getline_from delim (String c s))) = false
  /\ (String.length (snd (getline_from delim (String c s))) <= String.length s)%nat
  /\ (fst (getline_from delim (String c s))
      ++ String delim (normalise delim (snd (getline_from delim (String c s)))))%string
     = normalise delim (String c s).
Proof.
  revert c. induction s as [|c' s IH]; intros c.
  - cbn [getline_from normalise].
    destruct (Ascii.eqb_spec c delim) as [->|Hne]; simpl.
    + repeat split; trivial.
    + rewrite (proj2 (Ascii.eqb_neq c delim) Hne). repeat split; trivial.
  - specialize (IH c'). cbn [getline_from normalise] in *.
    destruct (Ascii.eqb_spec c delim) as [->|Hne].
    + cbn [fst snd]. repeat split; trivial.
    + destruct (Ascii.eqb c' delim);
        [|destruct (getline_from delim s) as [x rest]];
        cbn [fst snd contains String.length] in *;
        rewrite (proj2 (Ascii.eqb_neq c delim) Hne);
        destruct IH as (Hx & Hlen & Heq);
        (split; [exact Hx|split; [lia|]]);
        cbn [append]; now rewrite <- Heq.
Qed.

Lemma read_all_fuel (delim : ascii) (fuel1 fuel2 : nat) (s : string)
    (v : list string) :
  (String.length s <= fuel1)%nat -> (String.length s <= fuel2)%nat ->
  read_all fuel1 delim s v = read_all fuel2 delim s v.
Proof.
  revert fuel2 s v. induction fuel1 as [|fuel1 IH]; intros fuel2 s v H1 H2.
  - destruct s; [|simpl in H1; lia]. now destruct fuel2.
  - destruct s as [|c s]; [now destruct fuel2|].
    destruct fuel2 as [|fuel2]; [simpl in H2; lia|].
    cbn [read_all getline].
    destruct (getline_from_spec delim c s) as (_ & Hlen & _).
    destruct (getline_from delim (String c s)) as [x rest]. cbn [snd] in Hlen.
    simpl in H1, H2. apply IH; lia.
Qed.

Lemma read_all_app (delim : ascii) (fuel : nat) (s : string) (v : list string) :
  read_all fuel delim s v = v ++ read_all fuel delim s [].
Proof.
  revert s v. induction fuel as [|fuel IH]; intros s v; simpl.
  - now rewrite app_nil_r.
  - destruct (getline delim s) as [[x rest]|]; [|now rewrite app_nil_r].
    rewrite (IH rest (v ++ [x])), (IH rest [x]).
    now rewrite <- app_assoc.
Qed.

Lemma read_all_spec (delim : ascii) (fuel : nat) (s : string) :
  (String.length s <= fuel)%nat ->
  Forall (fun x => contains delim x = false) (read_all fuel delim s [])
  /\ terminate delim (read_all fuel delim s []) = normalise delim s.
Proof.
  revert s. induction fuel as [|fuel IH]; intros s Hlen.
  - destruct s; [|simpl in Hlen; lia]. split; [constructor|reflexivity].
  - destruct s as [|c s]; [split; [constructor|reflexivity]|].
    cbn [read_all getline].
    destruct (getline_from_spec delim c s) as (Hx & Hrest & Heq).
    destruct (getline_from delim (String c s)) as [x rest].
    cbn [fst snd] in *. simpl in Hlen.
    rewrite read_all_app. cbn [app].
    destruct (IH rest ltac:(lia)) as [Hall Hterm].
    split; [now constructor|].
    cbn [terminate]. now rewrite Hterm.
Qed.

Lemma getline_from_prefix (delim : ascii) (h rest : string) :
  contains delim h = false ->
  getline_from delim (h ++ String delim rest) = (h, rest).
Proof.
  induction h as [|c h IH]; cbn [append getline_from contains]; intros Hh.
  - now rewrite Ascii.eqb_refl.
  - apply orb_false_iff in Hh as [Hc Hh]. rewrite Hc, (IH Hh). reflexivity.
Qed.

Lemma string_length_app (s1 s2 : string) :
  String.length (s1 ++ s2) = (String.length s1 + String.length s2)%nat.
Proof. induction s1 as [|c s1 IH]; simpl; [reflexivity|now rewrite IH]. Qed.

(** The first line of a text is what precedes its first line feed. *)
Lemma lines_of_first (h rest : string) :
  contains "010"%char h = false ->
  lines_of (h ++ String "010"%char rest) = h :: lines_of rest.
Proof.
  intros Hh. unfold lines_of.
  destruct (h ++ String "010"%char rest)%string as [|c s] eqn:Hs.
  { destruct h; discriminate. }
  cbn [String.length read_all getline].
  rewrite <- Hs, (getline_from_prefix _ h rest Hh), read_all_app. cbn [app].
  f_equal. apply read_all_fuel; [|lia].
  apply (f_equal String.length) in Hs. rewrite string_length_app in Hs.
  simpl in Hs. lia.
Qed.

(** X21: the fields read off a line never hold a [^], and put back in a row,
    each followed by [^], they give the line again, a final [^] being added
    when the line had none: a [^] at the end of a line closes the last field
    and opens no empty one.  The lines of a file are read the same way. *)
Theorem fields_of_round_trip (line content : string) :
  Forall (fun x => contains "^"%char x = false) (fields_of line)
  /\ terminate "^"%char (fields_of line) = normalise "^"%char line
  /\ Forall (fun x => contains "010"%char x = false) (lines_of content)
  /\ terminate "010"%char (lines_of content) = normalise "010"%char content.
Proof.
  destruct (read_all_spec "^"%char (String.length line) line) as [H1 H2];
    [lia|].
  destruct (read_all_spec "010"%char (String.length content) content)
    as [H3 H4]; [lia|].
  repeat split; assumption.
Qed.

(** ** The loader *)

Section LoaderFacts.

Variable read_double : string -> Q.

Lemma double_to_size_t_cases (x : Q) :
  (0 <= Qtruncate x < 2 ^ 64 /\ double_to_size_t x = Ok (Qtruncate x))
  \/ (~ 0 <= Qtruncate x < 2 ^ 64 /\ double_to_size_t x = UndefinedBehaviour).
Proof.
  unfold double_to_size_t. cbv zeta.
  destruct (Z.leb_spec 0 (Qtruncate x)); destruct (Z.ltb_spec (Qtruncate x) (2 ^ 64));
    simpl; [left|right|right|right]; split; trivial; lia.
Qed.

(** What the loader does of one line past the header. *)
Lemma load_line_cases (line : string) (result : list ArmorItem) :
  (length (fields_of line) <> 3%nat /\ load_line read_double line result = Ok None)
  \/ (length (fields_of line) = 3%nat
      /\ ~ 0 <= Qtruncate (read_double (nth 1 (fields_of line) EmptyString)) < 2 ^ 64
      /\ load_line read_double line result = UndefinedBehaviour)
  \/ (length (fields_of line) = 3%nat
      /\ 0 <= Qtruncate (read_double (nth 1 (fields_of line) EmptyString)) < 2 ^ 64
      /\ ~ good_line read_double line
      /\ load_line read_double line result = AssertionFailure)
  \/ (good_line read_double line
      /\ load_line read_double line result
         = Ok (Some (result ++ [item_of_line read_double line]))).
Proof.
  unfold load_line, parse_dbl, good_line, item_of_line. cbv zeta.
  destruct (Nat.eqb_spec (length (fields_of line)) 3) as [Hlen|Hlen];
    cbn [negb]; [|now left].
  right. cbn [andb].
  set (d := nth 0 (fields_of line) EmptyString).
  set (c := read_double (nth 1 (fields_of line) EmptyString)).
  set (v := read_double (nth 2 (fields_of line) EmptyString)).
  destruct (double_to_size_t_cases c) as [[Hc ->]|[Hc ->]]; [|now left].
  right. rewrite bind_Ok. unfold new_ArmorItem.
  destruct (String.eqb_spec d "") as [Hd|Hd].
  { left. split; [exact Hlen|]. split; [exact Hc|].
    split; [|reflexivity]. intros (_ & Hd' & _). contradiction. }
  destruct (Z.gtb_spec (Qtruncate c) 0) as [Hpos|Hzero]; cbn [negb].
  - right. rewrite bind_Ok. split; [|reflexivity].
    split; [exact Hlen|]. split; [exact Hd|lia].
  - left. split; [exact Hlen|]. split; [exact Hc|].
    split; [|reflexivity]. intros (_ & _ & Hc'). lia.
Qed.

(** Lines that all make an item are passed, one item each. *)
Lemma load_lines_good (good lines : list string) (k : nat) (result : list ArmorItem) :
  Forall (good_line read_double) good ->
  load_lines read_double (good ++ lines) (S k) result
  = load_lines read_double lines (S k + length good)
      (result ++ map (item_of_line read_double) good).
Proof.
  intros Hgood. revert k result.
  induction Hgood as [|line good Hline _ IH]; intros k result.
  - simpl. now rewrite Nat.add_0_r, app_nil_r.
  - cbn [app load_lines Nat.eqb].
    destruct (load_line_cases line result)
      as [[Hbad _]|[(_ & Hbad & _)|[(_ & _ & Hbad & _)|[_ ->]]]].
    + exfalso. destruct Hline as (Hl & _). contradiction.
    + exfalso. destruct Hline as (_ & _ & Hc). apply Hbad. lia.
    + contradiction.
    + rewrite bind_Ok, IH. cbn [map length].
      rewrite <- app_assoc. f_equal. lia.
Qed.

Lemma load_lines_returns (lines : list string) (k : nat)
    (result items : list ArmorItem) :
  load_lines read_double lines (S k) result = Ok (Some items) ->
  Forall (good_line read_double) lines.
Proof.
  revert k result. induction lines as [|line lines IH]; intros k result;
    [constructor|].
  cbn [load_lines Nat.eqb].
  destruct (load_line_cases line result)
    as [[_ ->]|[(_ & _ & ->)|[(_ & _ & _ & ->)|[Hgood ->]]]];
    try discriminate.
  rewrite bind_Ok. intros H. constructor; [exact Hgood|]. eapply IH, H.
Qed.

End LoaderFacts.

(** X22: the first line of the file is a header that the loader never
    looks at: two files that differ by it alone load alike. *)
Theorem load_armor_database_header (read_double : string -> Q)
    (header header' rest : string) :
  contains "010"%char header = false ->
  contains "010"%char header' = false ->
  load_armor_database read_double (Some (header ++ String "010"%char rest)%string)
  = load_armor_database read_double (Some (header' ++ String "010"%char rest)%string).
Proof.
  intros Hh Hh'. unfold load_armor_database.
  now rewrite !lines_of_first.
Qed.

Lemma load_armor_database_header_witness :
  contains "010"%char "name^cost^defense" = false
  /\ contains "010"%char "" = false
  /\ load_armor_database read_digits
       (Some ("name^cost^defense" ++ String "010"%char "helmet^3^4")%string)
     = load_armor_database read_digits
         (Some ("" ++ String "010"%char "helmet^3^4")%string).
Proof.
  assert (H1 : contains "010"%char "name^cost^defense" = false) by reflexivity.
  assert (H2 : contains "010"%char "" = false) by reflexivity.
  split; [exact H1|]. split; [exact H2|].
  apply (load_armor_database_header read_digits _ _ "helmet^3^4" H1 H2).
Defined.

(** X23: a file that cannot be opened gives no database; a file that can
    gives one exactly when each line past the header has three fields, a
    description that is not empty and a cost whose integer part is a
    [size_t] other than 0, and the database then holds one item for each of
    these lines, in order: no line is ever skipped. *)
Theorem load_armor_database_returns (read_double : string -> Q)
    (content : string) (items : list ArmorItem) :
  load_armor_database read_double None = Ok None
  /\ (load_armor_database read_double (Some content) = Ok (Some items)
      <-> Forall (good_line read_double) (tl (lines_of content))
          /\ items = map (item_of_line read_double) (tl (lines_of content))).
Proof.
  split; [reflexivity|]. unfold load_armor_database.
  destruct (lines_of content) as [|header lines]; cbn [tl].
  - simpl. split.
    + intros [= <-]. split; [constructor|reflexivity].
    + intros [_ ->]. reflexivity.
  - cbn [load_lines Nat.eqb]. split.
    + intros Hload.
      pose proof (load_lines_returns read_double lines 0 [] items Hload) as Hgood.
      split; [exact Hgood|].
      pose proof (load_lines_good read_double lines [] 0 [] Hgood) as Heq.
      rewrite app_nil_r in Heq. rewrite Heq in Hload. simpl in Hload.
      now injection Hload as <-.
    + intros [Hgood ->].
      pose proof (load_lines_good read_double lines [] 0 [] Hgood) as Heq.
      rewrite app_nil_r in Heq. rewrite Heq. reflexivity.
Qed.

(** X24: the first line past the header that makes no item ends the load,
    whatever follows it: with a number of fields other than three the load
    gives no database, although items were read before; with three fields
    the program stops, on an assertion when the description is empty or the
    integer part of the cost is 0, on an undefined conversion when that
    integer part is no [size_t]. *)
Theorem load_armor_database_first_bad_line (read_double : string -> Q)
    (content header bad : string) (good rest : list string) :
  lines_of content = header :: good ++ bad :: rest ->
  Forall (good_line read_double) good ->
  ~ good_line read_double bad ->
  (length (fields_of bad) <> 3%nat ->
   load_armor_database read_double (Some content) = Ok None)
  /\ (length (fields_of bad) = 3%nat ->
      (0 <= Qtruncate (read_double (nth 1 (fields_of bad) EmptyString)) < 2 ^ 64 ->
       load_armor_database read_double (Some content) = AssertionFailure)
      /\ (~ 0 <= Qtruncate (read_double (nth 1 (fields_of bad) EmptyString)) < 2 ^ 64 ->
          load_armor_database read_double (Some content) = UndefinedBehaviour)).
Proof.
  intros Hlines Hgood Hbad. unfold load_armor_database. rewrite Hlines.
  cbn [load_lines Nat.eqb]. rewrite (load_lines_good read_double good _ 0 [] Hgood).
  cbn [load_lines Nat.eqb Nat.add app].
  destruct (load_line_cases read_double bad
              (map (item_of_line read_double) good))
    as [[Hlen ->]|[(Hlen & Hc & ->)|[(Hlen & Hc & _ & ->)|[Hok _]]]];
    [| | |contradiction].
  - split; [reflexivity|]. intros Hlen'. contradiction.
  - split; [intros Hlen'; contradiction|]. intros _.
    split; [intros Hc'; contradiction|reflexivity].
  - split; [intros Hlen'; contradiction|]. intros _.
    split; [reflexivity|intros Hc'; contradiction].
Qed.

Lemma load_armor_database_first_bad_line_witness :
  lines_of ("name^cost^defense" ++ String "010"%char
            ("helmet^3^4" ++ String "010"%char
             ("boots^2^" ++ String "010"%char "shield^4^5")))%string
  = "name^cost^defense"%string
    :: ["helmet^3^4"%string] ++ "boots^2^"%string :: ["shield^4^5"%string]
  /\ Forall (good_line read_digits) ["helmet^3^4"%string]
  /\ ~ good_line read_digits "boots^2^"
  /\ load_armor_database read_digits
       (Some ("name^cost^defense" ++ String "010"%char
              ("helmet^3^4" ++ String "010"%char
               ("boots^2^" ++ String "010"%char "shield^4^5")))%string)
     = Ok None.
Proof.
  assert (Hlines :
    lines_of ("name^cost^defense" ++ String "010"%char
              ("helmet^3^4" ++ String "010"%char
               ("boots^2^" ++ String "010"%char "shield^4^5")))%string
    = "name^cost^defense"%string
      :: ["helmet^3^4"%string] ++ "boots^2^"%string :: ["shield^4^5"%string])
    by reflexivity.
  assert (Hgood : Forall (good_line read_digits) ["helmet^3^4"%string]).
  { constructor; [|constructor].
    split; [reflexivity|]. split; [discriminate|].
    vm_compute. split; reflexivity. }
  assert (Hbad : ~ good_line read_digits "boots^2^").
  { intros (Hlen & _). vm_compute in Hlen. discriminate. }
  split; [exact Hlines|]. split; [exact Hgood|]. split; [exact Hbad|].
  apply (load_armor_database_first_bad_line read_digits _ _ _ _ _
           Hlines Hgood Hbad).
  vm_compute. discriminate.
Defined.

(** ** The exhaustive solver and items of no use *)







(** ** The budget, whatever the rounding *)

(** X26: whatever the addition of doubles, what the dynamic solver returns
    on items of positive cost costs at most a budget that is not negative;
    under budget 0, and on the empty catalog, it returns the empty vector. *)
Theorem rounded_dynamic_max_defense_fits (fadd : Q -> Q -> Q)
    (armors : list ArmorItem) (budget : Z) :
  Forall (fun a => 0 < cost a) armors ->
  0 <= budget ->
  total_cost (Rounded.dynamic_max_defense fadd armors budget) <= budget
  /\ Rounded.dynamic_max_defense fadd armors 0 = []
  /\ Rounded.dynamic_max_defense fadd [] budget = [].
Proof.
  intros Hpos Hbudget. split; [|split; [|reflexivity]].
  - now destruct (rounded_dynamic_max_defense_cost fadd armors budget Hpos Hbudget).
  - destruct (rounded_dynamic_max_defense_cost fadd armors 0 Hpos ltac:(lia))
      as [Hcost Hin].
    destruct (Rounded.dynamic_max_defense fadd armors 0) as [|a l]; [reflexivity|].
    pose proof (total_cost_positive (a :: l)
                  (positive_costs_elem armors _ Hpos Hin) ltac:(discriminate)).
    lia.
Qed.

Lemma rounded_dynamic_max_defense_fits_witness :
  Forall (fun a => 0 < cost a) [cuirass; greaves; gloves; cap] /\ 0 <= 4
  /\ total_cost [cap; gloves; greaves] <= 4
  /\ Rounded.dynamic_max_defense binary64_add [cuirass; greaves; gloves; cap] 0 = [].
Proof.
  assert (Hpos : Forall (fun a => 0 < cost a) [cuirass; greaves; gloves; cap])
    by (repeat constructor).
  assert (Hbudget : 0 <= 4) by lia.
  split; [exact Hpos|]. split; [exact Hbudget|].
  destruct (rounded_dynamic_max_defense_fits binary64_add
              [cuirass; greaves; gloves; cap] 4 Hpos Hbudget) as (Hcost & Hzero & _).
  split; [exact Hcost|exact Hzero].
Defined.

(** X27: whatever the addition of doubles, on up to 30 items of positive
    cost whose costs add up within [int] the exhaustive solver returns a
    vector that costs at most a budget that is not negative, the empty
    vector under budget 0; on the empty catalog it returns the empty
    vector. *)
Theorem rounded_exhaustive_max_defense_fits (fadd : Q -> Q -> Q)
    (armors : list ArmorItem) (budget : Z) :
  (length armors <= 30)%nat ->
  Forall (fun a => 0 < cost a) armors ->
  total_cost armors <= INT_MAX ->
  0 <= budget ->
  (exists r, Rounded.exhaustive_max_defense fadd armors (inject_Z budget) = Ok r
             /\ total_cost r <= budget)
  /\ Rounded.exhaustive_max_defense fadd armors 0 = Ok []
  /\ Rounded.exhaustive_max_defense fadd [] (inject_Z budget) = Ok [].
Proof.
  intros Hn Hpos Hsum Hbudget. split; [|split; [|reflexivity]].
  - destruct (rounded_exhaustive_total fadd armors (inject_Z budget) Hn Hpos Hsum)
      as [r Hr].
    exists r. split; [exact Hr|].
    destruct (rounded_exhaustive_returns fadd armors _ r Hr) as (_ & m & -> & Hm & _).
    destruct Hm as [->|[_ Hf]].
    + rewrite subset_of_0. exact Hbudget.
    + unfold feasible in Hf. now rewrite <- Zle_Qle in Hf.
  - destruct (rounded_exhaustive_total fadd armors 0 Hn Hpos Hsum) as [r Hr].
    rewrite Hr. f_equal.
    destruct (rounded_exhaustive_returns fadd armors 0 r Hr) as (_ & m & -> & Hm & _).
    destruct Hm as [->|[_ Hf]]; [apply subset_of_0|].
    destruct (subset_of_within armors m Hpos) as [Hc _].
    destruct (subset_of armors m) as [|a l] eqn:Hsub; [reflexivity|].
    pose proof (total_cost_positive (a :: l) Hc ltac:(discriminate)) as Hlt.
    unfold feasible in Hf. rewrite Hsub in Hf.
    change 0%Q with (inject_Z 0) in Hf. rewrite <- Zle_Qle in Hf. lia.
Qed.

Lemma rounded_exhaustive_max_defense_fits_witness :
  (length [cuirass; greaves; gloves; cap] <= 30)%nat
  /\ Forall (fun a => 0 < cost a) [cuirass; greaves; gloves; cap]
  /\ total_cost [cuirass; greaves; gloves; cap] <= INT_MAX
  /\ 0 <= 4
  /\ (exists r,
        Rounded.exhaustive_max_defense binary64_add [cuirass; greaves; gloves; cap]
          (inject_Z 4) = Ok r
        /\ total_cost r <= 4)
  /\ Rounded.exhaustive_max_defense binary64_add [cuirass; greaves; gloves; cap] 0
     = Ok [].
Proof.
  assert (Hn : (length [cuirass; greaves; gloves; cap] <= 30)%nat) by (simpl; lia).
  assert (Hpos : Forall (fun a => 0 < cost a) [cuirass; greaves; gloves; cap])
    by (repeat constructor).
  assert (Hsum : total_cost [cuirass; greaves; gloves; cap] <= INT_MAX)
    by (vm_compute; discriminate).
  assert (Hbudget : 0 <= 4) by lia.
  split; [exact Hn|]. split; [exact Hpos|]. split; [exact Hsum|].
  split; [exact Hbudget|].
  destruct (rounded_exhaustive_max_defense_fits binary64_add
              [cuirass; greaves; gloves; cap] 4 Hn Hpos Hsum Hbudget)
    as (Hfit & Hzero & _).
  split; [exact Hfit|exact Hzero].
Defined.

(** X28: whatever the addition of doubles, on up to 30 items of positive
    cost whose costs add up within [int] the exhaustive solver returns the
    subset of a mask [m] that is 0 or fits the budget, that no subset within
    the budget beats in total defense, the defenses being added as
    [sum_armor_vector] adds them, and that is the lowest of the masks of
    that defense within the budget. *)
Theorem rounded_exhaustive_lowest_mask (fadd : Q -> Q -> Q)
    (armors : list ArmorItem) (budget : Q) :
  (length armors <= 30)%nat ->
  Forall (fun a => 0 < cost a) armors ->
  total_cost armors <= INT_MAX ->
  exists m,
    Rounded.exhaustive_max_defense fadd armors budget = Ok (select m 0 armors)
    /\ (m = 0
        \/ (0 < m < 2 ^ Z.of_nat (length armors)
            /\ (inject_Z (total_cost (select m 0 armors)) <= budget)%Q))
    /\ forall m', 0 <= m' < 2 ^ Z.of_nat (length armors) ->
         (inject_Z (total_cost (select m' 0 armors)) <= budget)%Q ->
         (Rounded.total_defense fadd (select m' 0 armors)
          <= Rounded.total_defense fadd (select m 0 armors))%Q
         /\ ((Rounded.total_defense fadd (select m' 0 armors)
              == Rounded.total_defense fadd (select m 0 armors))%Q -> m <= m').
Proof.
  intros Hn Hpos Hsum.
  destruct (rounded_exhaustive_total fadd armors budget Hn Hpos Hsum) as [r Hr].
  destruct (rounded_exhaustive_returns fadd armors budget r Hr)
    as (_ & m & -> & Hm & _ & Hbest).
  exists m. unfold feasible in Hm, Hbest.
  rewrite subset_of_select in *. split; [exact Hr|]. split; [exact Hm|].
  intros m' Hm' Hfit. specialize (Hbest m' Hm').
  rewrite subset_of_select in Hbest. now apply Hbest.
Qed.

Lemma rounded_exhaustive_lowest_mask_witness :
  (length [aegis; charm] <= 30)%nat
  /\ Forall (fun a => 0 < cost a) [aegis; charm]
  /\ total_cost [aegis; charm] <= INT_MAX
  /\ exists m,
       Rounded.exhaustive_max_defense binary64_add [aegis; charm] 2
       = Ok (select m 0 [aegis; charm])
       /\ ((Rounded.total_defense binary64_add (select 3 0 [aegis; charm])
            == Rounded.total_defense binary64_add (select m 0 [aegis; charm]))%Q
           -> m <= 3).
Proof.
  assert (Hn : (length [aegis; charm] <= 30)%nat) by (simpl; lia).
  assert (Hpos : Forall (fun a => 0 < cost a) [aegis; charm])
    by (repeat constructor).
  assert (Hsum : total_cost [aegis; charm] <= INT_MAX)
    by (vm_compute; discriminate).
  split; [exact Hn|]. split; [exact Hpos|]. split; [exact Hsum|].
  destruct (rounded_exhaustive_lowest_mask binary64_add [aegis; charm] 2
              Hn Hpos Hsum) as (m & Hr & _ & Hbest).
  exists m. split; [exact Hr|].
  apply (Hbest 3); [simpl; lia|vm_compute; discriminate].
Defined.
